(** * A feed-forward network trainer: the dense layer engine, the model
      file, the IDX dataset decoder and the bilinear rescaling transform.

    The C++ sources are embedded shallowly.

    - [float] is IEEE-754 binary32, carried as its 32-bit pattern; the
      arithmetic goes through the reference semantics of [SpecFloat]
      (round to nearest even).  [std::exp] and [std::tanh] come from the
      C library and are section variables.
    - [int] is [Z]; where the source converts to a 32-bit object (file
      fields, [uint32_t] products) the wrap-around is written out, and
      a signed product, sum or difference that can leave the range of
      [int] goes through [as_int], which has no value on overflow.
    - [std::vector] is [list] with stdpp's lookup and insert.  Reading or
      writing outside a vector, using an indeterminate value, converting
      a NaN to [int] and a throwing allocation all end the call without a
      normal return: those paths are [None] in the [option] monad.
    - the host is little-endian, as [swapEndian] in the sources assumes. *)

From Stdlib Require Import ZArith Lia Floats.SpecFloat Strings.Byte Strings.String.
From stdpp Require Import base option list gmap strings.

Local Open Scope Z_scope.

(** ** Bytes and 32-bit objects in memory *)

Module Bytes.

Definition Z_of_byte (b : byte) : Z := Z.of_N (Byte.to_N b).

Definition byte_of_Z (z : Z) : byte :=
  default "000"%byte (Byte.of_N (Z.to_N (z mod 256))).

(** The object representation of a 32-bit word on the host: least
    significant byte first. *)
Definition encode32 (w : Z) : list byte :=
  [byte_of_Z w; byte_of_Z (Z.shiftr w 8);
   byte_of_Z (Z.shiftr w 16); byte_of_Z (Z.shiftr w 24)].

Definition decode32 (bs : list byte) : Z :=
  match bs with
  | [b0; b1; b2; b3] =>
      Z_of_byte b0 + Z_of_byte b1 * 2 ^ 8
      + Z_of_byte b2 * 2 ^ 16 + Z_of_byte b3 * 2 ^ 24
  | _ => 0
  end.

(** Conversion of a 32-bit pattern to [int] (two's complement). *)
Definition to_int32 (w : Z) : Z :=
  let u := w mod 2 ^ 32 in
  if u <? 2 ^ 31 then u else u - 2 ^ 32.

Definition encode_int (z : Z) : list byte := encode32 (z mod 2 ^ 32).
Definition decode_int (bs : list byte) : Z := to_int32 (decode32 bs).

(** A vector of 32-bit objects written or read as one block. *)
Definition encode_words (ws : list Z) : list byte :=
  mjoin (encode32 <$> ws).

Fixpoint decode_words (bs : list byte) : list Z :=
  match bs with
  | b0 :: b1 :: b2 :: b3 :: rest => decode32 [b0; b1; b2; b3] :: decode_words rest
  | _ => []
  end.

(** [read] into a buffer that already holds [old]: the bytes extracted
    replace a prefix, the rest of the buffer keeps what it held. *)
Definition overlay (got old : list byte) : list byte :=
  got ++ drop (length got) old.

End Bytes.

(** ** binary32 *)

Module F32.

(** A [float] object: its 32 bits. *)
Definition float := Z.

Definition prec : Z := 24.
Definition emax : Z := 128.

Definition is_f32 (w : float) : Prop := 0 <= w < 2 ^ 32.

Definition of_bits (w : float) : spec_float :=
  let s := Z.testbit w 31 in
  let e := Z.land (Z.shiftr w 23) 255 in
  let m := Z.land w 8388607 in
  if e =? 0 then
    match m with
    | Zpos p => S754_finite s p (-149)
    | _ => S754_zero s
    end
  else if e =? 255 then
    (if m =? 0 then S754_infinity s else S754_nan)
  else
    match m + 8388608 with
    | Zpos p => S754_finite s p (e - 150)
    | _ => S754_nan
    end.

Definition sign_bit (s : bool) : Z := if s then 2147483648 else 0.

(** NaN results carry the default quiet pattern. *)
Definition to_bits (x : spec_float) : float :=
  match x with
  | S754_zero s => sign_bit s
  | S754_infinity s => sign_bit s + 2139095040
  | S754_nan => 2143289344
  | S754_finite s m e =>
      if Zpos m <? 8388608 then sign_bit s + Zpos m
      else sign_bit s + Z.shiftl (e + 150) 23 + (Zpos m - 8388608)
  end.

Definition lift2 (op : Z -> Z -> spec_float -> spec_float -> spec_float)
    (a b : float) : float :=
  to_bits (op prec emax (of_bits a) (of_bits b)).

Definition add : float -> float -> float := lift2 SFadd.
Definition sub : float -> float -> float := lift2 SFsub.
Definition mul : float -> float -> float := lift2 SFmul.
Definition div : float -> float -> float := lift2 SFdiv.
Definition neg (a : float) : float := to_bits (SFopp (of_bits a)).

(** [a < b] and [a <= b]; both are false when an operand is NaN. *)
Definition ltb (a b : float) : bool := SFltb (of_bits a) (of_bits b).
Definition leb (a b : float) : bool := SFleb (of_bits a) (of_bits b).

(** Conversion of an integer to [float]. *)
Definition of_int (z : Z) : float :=
  to_bits (binary_normalize prec emax z 0 false).

(** [static_cast<int>(std::floor(a))]: undefined on NaN, on infinities
    and outside the range of [int]. *)
Definition floor_int (a : float) : option Z :=
  match of_bits a with
  | S754_zero _ => Some 0
  | S754_finite s m e =>
      let v := cond_Zopp s (Zpos m) in
      let q := if 0 <=? e then Z.shiftl v e else Z.shiftr v (- e) in
      if (-2147483648 <=? q) && (q <=? 2147483647) then Some q else None
  | _ => None
  end.

(** Literals of the sources. *)
Definition zero : float := 0.                 (* 0.0f *)
Definition one : float := 1065353216.         (* 1.0f *)
Definition two : float := 1073741824.         (* 2.0f *)
Definition c0_01 : float := 1008981770.       (* 0.01f *)
Definition c255 : float := 1132396544.        (* 255.0f *)

(** [std::max(a, b)] is [(a < b) ? b : a]. *)
Definition max (a b : float) : float := if ltb a b then b else a.

End F32.

Abbreviation float := F32.float.

(** ** Vectors *)

(** [std::vector<T> v(n, x)]: a negative [int] count converts to a size
    beyond [max_size] and the constructor throws. *)
Definition vec_new {A} (n : Z) (x : A) : option (list A) :=
  if n <? 0 then None else Some (replicate (Z.to_nat n) x).

(** [v[i] = x], undefined outside the vector. *)
Definition vec_write {A} (i : nat) (x : A) (v : list A) : option (list A) :=
  if decide (i < length v)%nat then Some (<[i:=x]> v) else None.

(** ** [int] arithmetic *)

(** The value of an [int] expression: overflow is undefined. *)
Definition as_int (z : Z) : option Z :=
  if (-2147483648 <=? z) && (z <=? 2147483647) then Some z else None.

(** ** Loops *)

(** [for (i = lo; i < lo + n; i++) s = body(i, s)] *)
Fixpoint for_loop {S} (lo n : nat) (body : nat -> S -> option S) (s : S) : option S :=
  match n with
  | O => Some s
  | Datatypes.S n' => body lo s ≫= for_loop (Datatypes.S lo) n' body
  end.

(** [for (i = n - 1; i >= 0; i--) s = body(i, s)] *)
Fixpoint for_down {S} (n : nat) (body : nat -> S -> option S) (s : S) : option S :=
  match n with
  | O => Some s
  | Datatypes.S n' => body n' s ≫= for_down n' body
  end.

(** ** Files *)

Module IO.

(** The part of the file system the program sees: the contents of the
    files that exist, and the paths that cannot be opened. *)
Record FileSystem := mkFS {
  fs_files : gmap string (list byte);
  fs_denied : gset string
}.

(** [std::ifstream file(path, std::ios::binary); file.is_open()] *)
Definition open_in (fs : FileSystem) (path : string) : option (list byte) :=
  if decide (path ∈ fs_denied fs) then None else fs_files fs !! path.

(** [std::ofstream file(path, std::ios::binary); file.is_open()] *)
Definition open_out (fs : FileSystem) (path : string) : bool :=
  bool_decide (path ∉ fs_denied fs).

(** The file is truncated on opening and holds what was written when
    the stream is closed. *)
Definition close_out (fs : FileSystem) (path : string) (written : list byte)
    : FileSystem :=
  mkFS (<[path := written]> (fs_files fs)) (fs_denied fs).

(** An input stream: what is left to read, and the fail bit. *)
Record ifstream := mkIn { in_rest : list byte; in_fail : bool }.

(** [file.read(buf, n)] returns the bytes it extracted.  Once the fail
    bit is set nothing is extracted; a short read extracts what is
    left and sets the fail bit. *)
Definition read (n : nat) (s : ifstream) : list byte * ifstream :=
  if in_fail s then ([], s)
  else if decide (n <= length (in_rest s))%nat
       then (take n (in_rest s), mkIn (drop n (in_rest s)) false)
       else (in_rest s, mkIn [] true).

(** Reading a scalar declared without initialiser: after a short read
    the variable is indeterminate and its use is undefined. *)
Definition read_scalar (n : nat) (s : ifstream) : option (list byte * ifstream) :=
  let '(got, s') := read n s in
  if decide (length got = n) then Some (got, s') else None.

Definition read_int (s : ifstream) : option (Z * ifstream) :=
  '(got, s') ← read_scalar 4 s; Some (Bytes.decode_int got, s').

Definition read_uint32 (s : ifstream) : option (Z * ifstream) :=
  '(got, s') ← read_scalar 4 s; Some (Bytes.decode32 got, s').

Definition read_uchar (s : ifstream) : option (byte * ifstream) :=
  '(got, s') ← read_scalar 1 s;
  match got with
  | [b] => Some (b, s')
  | _ => None
  end.

(** An output stream: the bytes written so far. *)
Definition ofstream := list byte.
Definition write (bs : list byte) (s : ofstream) : ofstream := s ++ bs.

End IO.

(** ** The layer engine *)

Module NN.

(** [enum class ActivationType], whose underlying type is [int]: an
    object of the type holds any [int], the four enumerators are the
    character codes of 's', 't', 'r' and 'l'. *)
Definition ActivationType := Z.
Definition Sigmoid : ActivationType := 115.
Definition Tanh : ActivationType := 116.
Definition ReLU : ActivationType := 114.
Definition LeakyReLU : ActivationType := 108.

Record Layer := mkLayer {
  numNodesIn : Z;
  numNodesOut : Z;
  actType : ActivationType;
  weights : list float;
  biases : list float;
  lastInputs : list float;
  lastOutputs : list float
}.

Definition set_lastInputs (v : list float) (l : Layer) : Layer :=
  mkLayer (numNodesIn l) (numNodesOut l) (actType l) (weights l) (biases l)
          v (lastOutputs l).

Definition set_lastOutputs (v : list float) (l : Layer) : Layer :=
  mkLayer (numNodesIn l) (numNodesOut l) (actType l) (weights l) (biases l)
          (lastInputs l) v.

Definition set_params (ws bs : list float) (l : Layer) : Layer :=
  mkLayer (numNodesIn l) (numNodesOut l) (actType l) ws bs
          (lastInputs l) (lastOutputs l).

Record NeuralNetwork := mkNet { layers : list Layer }.

(** [in * numNodesOut + out] *)
Definition weightIndex (l : Layer) (i o : nat) : nat :=
  (i * Z.to_nat (numNodesOut l) + o)%nat.

(** [Layer(nIn, nOut, act)]: the vectors are sized, then filled with
    the draws [rnd 0, rnd 1, ...] of a freshly seeded generator.  The
    product is an [int] product (overflow is undefined), a negative
    size makes [resize] throw. *)
Definition Layer_new (rnd : nat -> float) (nIn nOut : Z) (act : ActivationType)
    : option Layer :=
  let n := nIn * nOut in
  if negb ((-2147483648 <=? n) && (n <=? 2147483647)) then None
  else if (n <? 0) || (nOut <? 0) then None
  else Some (mkLayer nIn nOut act
               (rnd <$> seq 0 (Z.to_nat n))
               (rnd <$> seq (Z.to_nat n) (Z.to_nat nOut))
               [] []).

Section Engine.

(** [std::exp] and [std::tanh] on [float]. *)
Variables exp tanh : float -> float.

Definition activation (act : ActivationType) (x : float) : float :=
  if act =? Tanh then tanh x
  else if act =? Sigmoid then F32.div F32.one (F32.add F32.one (exp (F32.neg x)))
  else if act =? ReLU then F32.max F32.zero x
  else if act =? LeakyReLU then
    (if F32.ltb (F32.of_int 0) x then x else F32.mul F32.c0_01 x)
  else x.

Definition activationDerivative (act : ActivationType) (y : float) : float :=
  if act =? Tanh then F32.sub F32.one (F32.mul y y)
  else if act =? Sigmoid then F32.mul y (F32.sub F32.one y)
  else if act =? ReLU then (if F32.ltb F32.zero y then F32.one else F32.zero)
  else if act =? LeakyReLU then (if F32.ltb F32.zero y then F32.one else F32.c0_01)
  else F32.one.

Definition calculateOutput (inputs : list float) (l : Layer)
    : option (list float * Layer) :=
  let l := set_lastInputs inputs l in
  outputs ← vec_new (numNodesOut l) F32.zero;
  outputs ← for_loop 0 (Z.to_nat (numNodesOut l)) (λ out outputs,
    sum ← biases l !! out;
    sum ← for_loop 0 (Z.to_nat (numNodesIn l)) (λ i sum,
      x ← inputs !! i;
      w ← weights l !! weightIndex l i out;
      Some (F32.add sum (F32.mul x w))) sum;
    vec_write out (activation (actType l) sum) outputs) outputs;
  Some (outputs, set_lastOutputs outputs l).

Definition backPropagate (outputGradients : list float) (learningRate : float)
    (l : Layer) : option (list float * Layer) :=
  inputGradients ← vec_new (numNodesIn l) F32.zero;
  '(inputGradients, ws, bs) ←
    for_loop 0 (Z.to_nat (numNodesOut l)) (λ out '(inputGradients, ws, bs),
      y ← lastOutputs l !! out;
      let derivative := activationDerivative (actType l) y in
      g ← outputGradients !! out;
      let delta := F32.mul g derivative in
      b ← bs !! out;
      bs ← vec_write out (F32.sub b (F32.mul learningRate delta)) bs;
      '(inputGradients, ws) ←
        for_loop 0 (Z.to_nat (numNodesIn l)) (λ i '(inputGradients, ws),
          let k := weightIndex l i out in
          gi ← inputGradients !! i;
          w ← ws !! k;
          inputGradients ← vec_write i (F32.add gi (F32.mul delta w)) inputGradients;
          w ← ws !! k;
          x ← lastInputs l !! i;
          ws ← vec_write k (F32.sub w (F32.mul (F32.mul learningRate delta) x)) ws;
          Some (inputGradients, ws)) (inputGradients, ws);
      Some (inputGradients, ws, bs)) (inputGradients, weights l, biases l);
  Some (inputGradients, set_params ws bs l).

(** [for (auto& layer : layers) inputs = layer.calculateOutput(inputs);] *)
Fixpoint feed (inputs : list float) (ls : list Layer)
    : option (list float * list Layer) :=
  match ls with
  | [] => Some (inputs, [])
  | l :: rest =>
      '(outputs, l') ← calculateOutput inputs l;
      '(result, rest') ← feed outputs rest;
      Some (result, l' :: rest')
  end.

Definition feedForward (inputs : list float) (net : NeuralNetwork)
    : option (list float * NeuralNetwork) :=
  '(result, ls) ← feed inputs (layers net); Some (result, mkNet ls).

(** [train] returns [void]: the model yields the network only. *)
Definition train (inputs targets : list float) (learningRate : float)
    (net : NeuralNetwork) : option NeuralNetwork :=
  '(results, net) ← feedForward inputs net;
  gradients ← for_loop 0 (length results) (λ i gradients,
    r ← results !! i;
    t ← targets !! i;
    Some (gradients ++ [F32.sub r t])) [];
  '(_, ls) ← for_down (length (layers net)) (λ i '(gradients, ls),
    l ← ls !! i;
    '(gradients, l') ← backPropagate gradients learningRate l;
    ls ← vec_write i l' ls;
    Some (gradients, ls)) (gradients, layers net);
  Some (mkNet ls).

End Engine.

(** [NeuralNetwork(topology)]: [rnd k] is the generator of the layer
    built in iteration [k].  With an empty topology the [size_t] bound
    wraps around and the loop reads outside the vector. *)
Definition NeuralNetwork_new (rnd : nat -> nat -> float) (topology : list Z)
    : option NeuralNetwork :=
  match topology with
  | [] => None
  | _ =>
      ls ← for_loop 0 (length topology - 1) (λ i ls,
        nIn ← topology !! i;
        nOut ← topology !! (i + 1)%nat;
        let act := if decide (i = length topology - 2)%nat then Sigmoid else Tanh in
        l ← Layer_new (rnd i) nIn nOut act;
        Some (ls ++ [l])) [];
      Some (mkNet ls)
  end.

(** *** The model file *)

Definition save_layer (l : Layer) (file : IO.ofstream) : IO.ofstream :=
  let file := IO.write (Bytes.encode_int (numNodesIn l)) file in
  let file := IO.write (Bytes.encode_int (numNodesOut l)) file in
  (* sizeof(ActivationType) is sizeof(int) *)
  let file := IO.write (Bytes.encode_int (actType l)) file in
  let file := IO.write (Bytes.encode_words (weights l)) file in
  IO.write (Bytes.encode_words (biases l)) file.

Definition save (filename : string) (net : NeuralNetwork) (fs : IO.FileSystem)
    : NeuralNetwork * IO.FileSystem :=
  if negb (IO.open_out fs filename) then (net, fs)
  else
    let numLayers := Bytes.to_int32 (Z.of_nat (length (layers net))) in
    let file := IO.write (Bytes.encode_int numLayers) [] in
    let file := foldl (λ file l, save_layer l file) file (layers net) in
    (net, IO.close_out fs filename file).

(** [file.read((char* )v.data(), v.size() * sizeof(float))] *)
Definition read_floats (v : list float) (file : IO.ifstream)
    : list float * IO.ifstream :=
  let '(got, file) := IO.read (4 * length v) file in
  (Bytes.decode_words (Bytes.overlay got (Bytes.encode_words v)), file).

Definition load_layer (rnd : nat -> float) (file : IO.ifstream)
    : option (Layer * IO.ifstream) :=
  '(nIn, file) ← IO.read_int file;
  '(nOut, file) ← IO.read_int file;
  '(act, file) ← IO.read_int file;
  l ← Layer_new rnd nIn nOut act;
  let '(ws, file) := read_floats (weights l) file in
  let '(bs, file) := read_floats (biases l) file in
  Some (set_params ws bs l, file).

Definition load (rnd : nat -> nat -> float) (filename : string)
    (net : NeuralNetwork) (fs : IO.FileSystem) : option NeuralNetwork :=
  match IO.open_in fs filename with
  | None => Some net
  | Some content =>
      let file := IO.mkIn content false in
      (* layers.clear() *)
      '(numLayers, file) ← IO.read_int file;
      '(ls, _) ← for_loop 0 (Z.to_nat numLayers) (λ i '(ls, file),
        '(l, file) ← load_layer (rnd i) file;
        Some (ls ++ [l], file)) ([], file);
      Some (mkNet ls)
  end.

End NN.

(** ** The dataset decoder and the rescaling transform *)

Module ImgProc.

Record Image := mkImage {
  pixels : list float;
  target : list float;
  label : Z
}.

(** [uint32_t] in, [uint32_t] out: the masks keep the shifted value
    inside 32 bits. *)
Definition swapEndian (val : Z) : Z :=
  Z.lor (Z.lor (Z.lor (Z.land (Z.shiftl val 24) 0xFF000000)
                      (Z.land (Z.shiftl val 8) 0x00FF0000))
               (Z.land (Z.shiftr val 8) 0x0000FF00))
        (Z.land (Z.shiftr val 24) 0x000000FF).

(** [v[i]] with an [int] index: a negative index converts to a size
    beyond the vector. *)
Definition vec_read {A} (v : list A) (i : Z) : option A :=
  if i <? 0 then None else v !! Z.to_nat i.

(** The body of the record loop of [load]: [img] is [dataset[i]]. *)
Definition load_record (imageSize : Z) (img : Image)
    (imgFile lblFile : IO.ifstream) : option (Image * IO.ifstream * IO.ifstream) :=
  (* img.pixels.reserve(imageSize) throws on a negative size *)
  if imageSize <? 0 then None else
  '(labelByte, lblFile) ← IO.read_uchar lblFile;
  let label := Bytes.Z_of_byte labelByte in
  let target := replicate 10 F32.zero in
  target ← (if (0 <=? label) && (label <? 10)
            then vec_write (Z.to_nat label) F32.one target
            else Some target);
  pixelBuffer ← vec_new imageSize "000"%byte;
  let '(got, imgFile) := IO.read (Z.to_nat imageSize) imgFile in
  let pixelBuffer := Bytes.overlay got pixelBuffer in
  pixels ← for_loop 0 (Z.to_nat imageSize) (λ j pixels,
    b ← pixelBuffer !! j;
    Some (pixels ++ [F32.div (F32.of_int (Bytes.Z_of_byte b)) F32.c255])) (pixels img);
  Some (mkImage pixels target label, imgFile, lblFile).

Definition load (imagePath labelPath : string) (fs : IO.FileSystem)
    : option (list Image) :=
  match IO.open_in fs imagePath, IO.open_in fs labelPath with
  | Some imgContent, Some lblContent =>
      let imgFile := IO.mkIn imgContent false in
      let lblFile := IO.mkIn lblContent false in
      '(magicImg, imgFile) ← IO.read_uint32 imgFile;
      '(numImg, imgFile) ← IO.read_uint32 imgFile;
      '(rows, imgFile) ← IO.read_uint32 imgFile;
      '(cols, imgFile) ← IO.read_uint32 imgFile;
      '(magicLbl, lblFile) ← IO.read_uint32 lblFile;
      '(numLbl, lblFile) ← IO.read_uint32 lblFile;
      let magicImg := swapEndian magicImg in
      let numImg := swapEndian numImg in
      let rows := swapEndian rows in
      let cols := swapEndian cols in
      let magicLbl := swapEndian magicLbl in
      let numLbl := swapEndian numLbl in
      if negb (magicImg =? 2051) || negb (magicLbl =? 2049) then Some []
      else if negb (numImg =? numLbl) then Some []
      else
        let imageSize := Bytes.to_int32 ((rows * cols) mod 2 ^ 32) in
        let dataset := replicate (Z.to_nat numImg) (mkImage [] [] 0) in
        '(dataset, _, _) ←
          for_loop 0 (Z.to_nat numImg) (λ i '(dataset, imgFile, lblFile),
            img ← dataset !! i;
            '(img, imgFile, lblFile) ← load_record imageSize img imgFile lblFile;
            dataset ← vec_write i img dataset;
            Some (dataset, imgFile, lblFile)) (dataset, imgFile, lblFile);
        Some dataset
  | _, _ => Some []
  end.

Section ScaleImage.

Variables (src : list float) (scale : float) (srcW srcH dstW dstH : Z).

Definition cx_src : float := F32.div (F32.of_int (srcW - 1)) F32.two.
Definition cy_src : float := F32.div (F32.of_int (srcH - 1)) F32.two.
Definition cx_dst : float := F32.div (F32.of_int (dstW - 1)) F32.two.
Definition cy_dst : float := F32.div (F32.of_int (dstH - 1)) F32.two.

(** [(x - cx_dst) / scale + cx_src] and its twin. *)
Definition source_x (x : Z) : float :=
  F32.add (F32.div (F32.sub (F32.of_int x) cx_dst) scale) cx_src.
Definition source_y (y : Z) : float :=
  F32.add (F32.div (F32.sub (F32.of_int y) cy_dst) scale) cy_src.

(** [sx < 0 || sx >= srcW - 1 || sy < 0 || sy >= srcH - 1] *)
Definition outside (sx sy : float) : bool :=
  F32.ltb sx (F32.of_int 0) || F32.leb (F32.of_int (srcW - 1)) sx
  || F32.ltb sy (F32.of_int 0) || F32.leb (F32.of_int (srcH - 1)) sy.

(** [a * (1 - w) + b * w] *)
Definition lerp (a b w : float) : float :=
  F32.add (F32.mul a (F32.sub (F32.of_int 1) w)) (F32.mul b w).

(** [src[y * srcW + x]]: the index is an [int] expression. *)
Definition pixel_at (y x : Z) : option float :=
  row ← as_int (y * srcW);
  i ← as_int (row + x);
  vec_read src i.

(** The size [dstW * dstH] and the four [... - 1] of the centres are
    [int] expressions, evaluated before the loops; so are [x0 + 1],
    [y0 + 1] and the source indices.  The destination index
    [y * dstW + x] stays below the size. *)
Definition scaleImage : option (list float) :=
  size ← as_int (dstW * dstH);
  out ← vec_new size F32.zero;
  _ ← as_int (srcW - 1);
  _ ← as_int (srcH - 1);
  _ ← as_int (dstW - 1);
  _ ← as_int (dstH - 1);
  for_loop 0 (Z.to_nat dstH) (λ y out,
    for_loop 0 (Z.to_nat dstW) (λ x out,
      let sx := source_x (Z.of_nat x) in
      let sy := source_y (Z.of_nat y) in
      if outside sx sy then
        vec_write (y * Z.to_nat dstW + x) F32.zero out
      else
        x0 ← F32.floor_int sx;
        y0 ← F32.floor_int sy;
        x1 ← as_int (x0 + 1);
        y1 ← as_int (y0 + 1);
        let wx := F32.sub sx (F32.of_int x0) in
        let wy := F32.sub sy (F32.of_int y0) in
        v00 ← pixel_at y0 x0;
        v10 ← pixel_at y0 x1;
        v01 ← pixel_at y1 x0;
        v11 ← pixel_at y1 x1;
        let v0 := lerp v00 v10 wx in
        let v1 := lerp v01 v11 wx in
        let v := lerp v0 v1 wy in
        vec_write (y * Z.to_nat dstW + x) v out) out) out.

End ScaleImage.

End ImgProc.

(** ** The shift transform of the augmentation *)

Module Translate.
Import ImgProc.

(** [translateImage]: destination pixel [(x, y)] takes the source pixel
    [(x - dx, y - dy)] when that lies inside the image, [0.0f] otherwise. *)
Definition translateImage (pixels : list float) (dx dy width height : Z)
    : option (list float) :=
  size ← as_int (width * height);
  out ← vec_new size F32.zero;
  for_loop 0 (Z.to_nat height) (λ y out,
    for_loop 0 (Z.to_nat width) (λ x out,
      sx ← as_int (Z.of_nat x - dx);
      sy ← as_int (Z.of_nat y - dy);
      if (0 <=? sx) && (sx <? width) && (0 <=? sy) && (sy <? height) then
        v ← vec_read pixels (sy * width + sx);
        vec_write (y * Z.to_nat width + x) v out
      else
        vec_write (y * Z.to_nat width + x) F32.zero out) out) out.

End Translate.

(** ** The viewers: picking the prediction, showing a pixel *)

Module Viewer.
Import Bytes F32.

(** [getPrediction] of the dataset viewer: the loop keeps the running
    maximum and its index, and moves both when [output[i] > maxVal]. *)
Definition getPrediction (output : list float) : option Z :=
  maxVal ← output !! 0%nat;
  '(maxIndex, _) ←
    for_loop 1 (length output - 1) (λ i '(maxIndex, maxVal),
      v ← output !! i;
      if F32.ltb maxVal v then Some (to_int32 (Z.of_nat i), v)
      else Some (maxIndex, maxVal)) (0, maxVal);
  Some maxIndex.

(** [getPrediction] of the drawing program:
    [std::distance(begin, std::max_element(begin, end))].  On an empty
    range [max_element] returns [end]; otherwise it walks the range and
    moves the result whenever [*result < *first]. *)
Definition getPrediction_draw (values : list float) : option Z :=
  match values with
  | [] => Some 0
  | _ =>
      result ← for_loop 1 (length values - 1) (λ i result,
        r ← values !! result;
        v ← values !! i;
        if F32.ltb r v then Some i else Some result) 0%nat;
      Some (to_int32 (Z.of_nat result))
  end.

(** [static_cast<sf::Uint8>(a)]: the fraction is dropped; a value that
    does not fit the type is undefined. *)
Definition to_uint8 (a : float) : option Z :=
  match of_bits a with
  | S754_zero _ => Some 0
  | S754_finite s m e =>
      let q := if 0 <=? e then Z.shiftl (Zpos m) e else Z.shiftr (Zpos m) (- e) in
      let q := cond_Zopp s q in
      if (0 <=? q) && (q <=? 255) then Some q else None
  | _ => None
  end.

(** The grey level the dataset viewer draws for a pixel:
    [static_cast<sf::Uint8>(brightness * 255.0f)]. *)
Definition grey_level (brightness : float) : option Z :=
  to_uint8 (F32.mul brightness F32.c255).

End Viewer.

(** * Properties *)

(** ** Bytes *)

Module BytesFacts.
Import Bytes.

Lemma Z_of_byte_range (b : byte) : 0 <= Z_of_byte b < 256.
Proof.
  unfold Z_of_byte. pose proof (Byte.to_N_bounded b) as H.
  split; [apply N2Z.is_nonneg | lia].
Qed.

Lemma Z_of_byte_of_Z (z : Z) : Z_of_byte (byte_of_Z z) = z mod 256.
Proof.
  unfold Z_of_byte, byte_of_Z.
  assert (Hr : 0 <= z mod 256 < 256) by (apply Z.mod_pos_bound; lia).
  destruct (Byte.of_N (Z.to_N (z mod 256))) as [b|] eqn:E.
  - apply Byte.to_of_N in E. simpl. rewrite E. lia.
  - apply Byte.of_N_None_iff in E. lia.
Qed.

Lemma byte_of_Z_of_byte (b : byte) : byte_of_Z (Z_of_byte b) = b.
Proof.
  unfold byte_of_Z. pose proof (Z_of_byte_range b) as Hr.
  rewrite Z.mod_small by lia. unfold Z_of_byte.
  rewrite N2Z.id, Byte.of_to_N. reflexivity.
Qed.

Lemma decode32_encode32 (w : Z) : 0 <= w < 2 ^ 32 -> decode32 (encode32 w) = w.
Proof.
  intros Hw. unfold decode32, encode32.
  rewrite !Z_of_byte_of_Z, !Z.shiftr_div_pow2 by lia.
  change (2 ^ 8) with 256. change (2 ^ 16) with 65536.
  change (2 ^ 24) with 16777216. change (2 ^ 32) with 4294967296 in Hw.
  assert (E2 : w / 65536 = w / 256 / 256) by (rewrite Z.div_div by lia; reflexivity).
  assert (E3 : w / 16777216 = w / 256 / 256 / 256)
    by (rewrite !Z.div_div by lia; reflexivity).
  rewrite E2, E3.
  pose proof (Z.div_mod w 256 ltac:(lia)).
  pose proof (Z.div_mod (w / 256) 256 ltac:(lia)).
  pose proof (Z.div_mod (w / 256 / 256) 256 ltac:(lia)).
  assert (0 <= w / 256 / 256 / 256 < 256).
  { split; [repeat apply Z.div_pos; lia|].
    repeat (apply Z.div_lt_upper_bound; [lia|]). lia. }
  rewrite (Z.mod_small (w / 256 / 256 / 256)) by lia.
  lia.
Qed.

Lemma encode32_decode32 (b0 b1 b2 b3 : byte) :
  encode32 (decode32 [b0; b1; b2; b3]) = [b0; b1; b2; b3].
Proof.
  unfold encode32, decode32.
  pose proof (Z_of_byte_range b0). pose proof (Z_of_byte_range b1).
  pose proof (Z_of_byte_range b2). pose proof (Z_of_byte_range b3).
  rewrite !Z.shiftr_div_pow2 by lia.
  set (w := _ + _ + _ + _).
  assert (Hb : forall b z, z mod 256 = Z_of_byte b mod 256 -> byte_of_Z z = b).
  { intros b z E. rewrite <- (byte_of_Z_of_byte b). unfold byte_of_Z.
    rewrite E. reflexivity. }
  assert (E0 : w mod 256 = Z_of_byte b0 mod 256).
  { unfold w. rewrite Z.mod_small with (a := Z_of_byte b0) by lia.
    symmetry. apply Z.mod_unique with
      (q := Z_of_byte b1 + Z_of_byte b2 * 2 ^ 8 + Z_of_byte b3 * 2 ^ 16); lia. }
  assert (E1 : (w / 2 ^ 8) mod 256 = Z_of_byte b1 mod 256).
  { assert (w / 2 ^ 8 = Z_of_byte b1 + Z_of_byte b2 * 2 ^ 8 + Z_of_byte b3 * 2 ^ 16) as ->.
    { symmetry. apply Z.div_unique with (r := Z_of_byte b0); unfold w; lia. }
    rewrite Z.mod_small with (a := Z_of_byte b1) by lia.
    symmetry. apply Z.mod_unique with (q := Z_of_byte b2 + Z_of_byte b3 * 2 ^ 8); lia. }
  assert (E2 : (w / 2 ^ 16) mod 256 = Z_of_byte b2 mod 256).
  { assert (w / 2 ^ 16 = Z_of_byte b2 + Z_of_byte b3 * 2 ^ 8) as ->.
    { symmetry. apply Z.div_unique with (r := Z_of_byte b0 + Z_of_byte b1 * 2 ^ 8);
        unfold w; lia. }
    rewrite Z.mod_small with (a := Z_of_byte b2) by lia.
    symmetry. apply Z.mod_unique with (q := Z_of_byte b3); lia. }
  assert (E3 : (w / 2 ^ 24) mod 256 = Z_of_byte b3 mod 256).
  { assert (w / 2 ^ 24 = Z_of_byte b3) as ->; [|reflexivity].
    symmetry. apply Z.div_unique with
      (r := Z_of_byte b0 + Z_of_byte b1 * 2 ^ 8 + Z_of_byte b2 * 2 ^ 16);
      unfold w; lia. }
  rewrite (Hb _ _ E0), (Hb _ _ E1), (Hb _ _ E2), (Hb _ _ E3). reflexivity.
Qed.

Lemma decode32_range (bs : list byte) : 0 <= decode32 bs < 2 ^ 32.
Proof.
  unfold decode32.
  destruct bs as [|b0 [|b1 [|b2 [|b3 [|? ?]]]]]; try lia.
  pose proof (Z_of_byte_range b0). pose proof (Z_of_byte_range b1).
  pose proof (Z_of_byte_range b2). pose proof (Z_of_byte_range b3). lia.
Qed.

Lemma decode_int_encode_int (z : Z) :
  - 2 ^ 31 <= z < 2 ^ 31 -> decode_int (encode_int z) = z.
Proof.
  intros Hz. unfold decode_int, encode_int.
  assert (Hr : 0 <= z mod 2 ^ 32 < 2 ^ 32) by (apply Z.mod_pos_bound; lia).
  rewrite decode32_encode32 by exact Hr.
  unfold to_int32. rewrite Z.mod_mod by lia.
  destruct (Z.ltb_spec (z mod 2 ^ 32) (2 ^ 31)) as [Hlt|Hge].
  - destruct (Z.le_gt_cases 0 z).
    + apply Z.mod_small. lia.
    + exfalso. rewrite <- (Z.mod_add z 1) in Hlt by lia.
      rewrite Z.mod_small in Hlt; lia.
  - destruct (Z.le_gt_cases 0 z).
    + rewrite Z.mod_small in Hge; lia.
    + rewrite <- (Z.mod_add z 1) by lia. rewrite Z.mod_small; lia.
Qed.

Lemma length_encode32 (w : Z) : length (encode32 w) = 4%nat.
Proof. reflexivity. Qed.

Lemma length_encode_int (z : Z) : length (encode_int z) = 4%nat.
Proof. reflexivity. Qed.

Lemma length_encode_words (ws : list Z) :
  length (encode_words ws) = (4 * length ws)%nat.
Proof.
  unfold encode_words. induction ws as [|w ws IH]; [reflexivity|].
  change (mjoin (encode32 <$> w :: ws)) with (encode32 w ++ mjoin (encode32 <$> ws)).
  rewrite length_app, IH, length_encode32. cbn [length]. lia.
Qed.

Lemma decode_words_encode_words (ws : list Z) :
  Forall F32.is_f32 ws -> decode_words (encode_words ws) = ws.
Proof.
  unfold encode_words. induction 1 as [|w ws Hw _ IH]; [reflexivity|].
  change (mjoin (encode32 <$> w :: ws)) with
    (byte_of_Z w :: byte_of_Z (Z.shiftr w 8) :: byte_of_Z (Z.shiftr w 16)
     :: byte_of_Z (Z.shiftr w 24) :: mjoin (encode32 <$> ws)).
  cbn [decode_words]. f_equal; [|exact IH].
  apply (decode32_encode32 w Hw).
Qed.

Lemma overlay_full (got old : list byte) :
  length old = length got -> overlay got old = got.
Proof.
  intros H. unfold overlay. rewrite drop_ge by lia. apply app_nil_r.
Qed.

Lemma overlay_nil (old : list byte) : overlay [] old = old.
Proof. reflexivity. Qed.

End BytesFacts.

(** ** Loops and vectors *)

Section LoopFacts.
Context {S : Type}.

(** An invariant carried through a counted loop whose body never
    leaves the defined paths. *)
Lemma for_loop_invariant (P : nat -> S -> Prop) (body : nat -> S -> option S)
    (n lo : nat) (s : S) :
  P lo s ->
  (forall i t, (lo <= i < lo + n)%nat -> P i t ->
     exists t', body i t = Some t' /\ P (Datatypes.S i) t') ->
  exists t, for_loop lo n body s = Some t /\ P (lo + n)%nat t.
Proof.
  revert lo s. induction n as [|n IH]; intros lo s H0 Hstep.
  - exists s. rewrite Nat.add_0_r. split; [reflexivity | exact H0].
  - destruct (Hstep lo s ltac:(lia) H0) as (t & Hb & Ht).
    destruct (IH (Datatypes.S lo) t Ht) as (u & Hu & HP).
    { intros i t' Hi. apply Hstep. lia. }
    exists u. cbn [for_loop]. rewrite Hb. cbn [mbind option_bind].
    split; [exact Hu|]. replace (lo + Datatypes.S n)%nat with (Datatypes.S lo + n)%nat by lia.
    exact HP.
Qed.

Lemma for_loop_ext (f g : nat -> S -> option S) (n lo : nat) (s : S) :
  (forall i t, (lo <= i < lo + n)%nat -> f i t = g i t) ->
  for_loop lo n f s = for_loop lo n g s.
Proof.
  revert lo s. induction n as [|n IH]; intros lo s H; [reflexivity|].
  cbn [for_loop]. rewrite H by lia. destruct (g lo s); [|reflexivity].
  cbn [mbind option_bind]. apply IH. intros. apply H. lia.
Qed.

Lemma for_loop_snoc (body : nat -> S -> option S) (n lo : nat) (s : S) :
  for_loop lo (Datatypes.S n) body s = for_loop lo n body s ≫= body (lo + n)%nat.
Proof.
  revert lo s. induction n as [|n IH]; intros lo s.
  - cbn [for_loop mbind option_bind]. rewrite Nat.add_0_r.
    destruct (body lo s); reflexivity.
  - change (for_loop lo (Datatypes.S (Datatypes.S n)) body s)
      with (body lo s ≫= for_loop (Datatypes.S lo) (Datatypes.S n) body).
    change (for_loop lo (Datatypes.S n) body s)
      with (body lo s ≫= for_loop (Datatypes.S lo) n body).
    destruct (body lo s) as [t|]; [|reflexivity]. cbn [mbind option_bind].
    rewrite IH. replace (Datatypes.S lo + n)%nat with (lo + Datatypes.S n)%nat by lia.
    reflexivity.
Qed.
End LoopFacts.

Lemma vec_new_Some {A} (n : Z) (x : A) :
  0 <= n -> vec_new n x = Some (replicate (Z.to_nat n) x).
Proof. intros H. unfold vec_new. destruct (Z.ltb_spec n 0); [lia | reflexivity]. Qed.

Lemma vec_write_Some {A} (i : nat) (x : A) (v : list A) :
  (i < length v)%nat -> vec_write i x v = Some (<[i:=x]> v).
Proof. intros H. unfold vec_write. destruct (decide _); [reflexivity | lia]. Qed.

Lemma vec_write_inv {A} (i : nat) (x : A) (v v' : list A) :
  vec_write i x v = Some v' -> (i < length v)%nat /\ v' = <[i:=x]> v.
Proof.
  unfold vec_write. destruct (decide _); intros H; [|discriminate].
  injection H as <-. split; [assumption | reflexivity].
Qed.

Lemma as_int_Some (z : Z) :
  -2147483648 <= z <= 2147483647 -> as_int z = Some z.
Proof.
  intros H. unfold as_int.
  destruct (Z.leb_spec (-2147483648) z), (Z.leb_spec z 2147483647);
    (reflexivity || lia).
Qed.

Lemma as_int_inv (z v : Z) :
  as_int z = Some v -> v = z /\ -2147483648 <= z <= 2147483647.
Proof.
  unfold as_int.
  destruct (Z.leb_spec (-2147483648) z), (Z.leb_spec z 2147483647);
    cbn [andb]; intros Hv; try discriminate Hv.
  injection Hv as <-. lia.
Qed.

Lemma lookup_Some_total {A} `{Inhabited A} (v : list A) (i : nat) :
  (i < length v)%nat -> v !! i = Some (v !!! i).
Proof. intros Hi. apply list_lookup_lookup_total_lt. exact Hi. Qed.

(** ** The layer *)

Module LayerFacts.
Import NN.

(** The size invariant of a layer. *)
Record wf_layer (l : Layer) : Prop := {
  wf_in : 0 <= numNodesIn l;
  wf_out : 0 <= numNodesOut l;
  wf_weights : length (weights l) = Z.to_nat (numNodesIn l * numNodesOut l);
  wf_biases : length (biases l) = Z.to_nat (numNodesOut l)
}.

Lemma weightIndex_lt (l : Layer) (i o : nat) :
  wf_layer l ->
  (i < Z.to_nat (numNodesIn l))%nat -> (o < Z.to_nat (numNodesOut l))%nat ->
  (weightIndex l i o < length (weights l))%nat.
Proof.
  intros [Hi Ho Hw _] Hlti Hlto. rewrite Hw. unfold weightIndex.
  rewrite Z2Nat.inj_mul by lia. nia.
Qed.

Lemma weightIndex_inj (l : Layer) (i o i' o' : nat) :
  (o < Z.to_nat (numNodesOut l))%nat -> (o' < Z.to_nat (numNodesOut l))%nat ->
  weightIndex l i o = weightIndex l i' o' -> i = i' /\ o = o'.
Proof.
  unfold weightIndex. intros Ho Ho' E.
  assert (i = i') by nia. subst i'. split; [reflexivity | lia].
Qed.

Section Engine.
Variables exp tanh : float -> float.

(** [bias[o] + Σ_(i < n) inputs[i] * weight[i][o]], the terms added
    in the order of the index. *)
Fixpoint weighted_sum (l : Layer) (inputs : list float) (o n : nat) : float :=
  match n with
  | O => biases l !!! o
  | Datatypes.S k =>
      F32.add (weighted_sum l inputs o k)
              (F32.mul (inputs !!! k) (weights l !!! weightIndex l k o))
  end.

Lemma calculateOutput_sum (l : Layer) (inputs : list float) (o : nat) :
  wf_layer l -> length inputs = Z.to_nat (numNodesIn l) ->
  (o < Z.to_nat (numNodesOut l))%nat ->
  for_loop 0 (Z.to_nat (numNodesIn l)) (λ i sum,
      x ← inputs !! i;
      w ← weights l !! weightIndex l i o;
      Some (F32.add sum (F32.mul x w))) (biases l !!! o)
  = Some (weighted_sum l inputs o (Z.to_nat (numNodesIn l))).
Proof.
  intros Hwf Hlen Ho.
  edestruct (for_loop_invariant
    (λ i s, s = weighted_sum l inputs o i)) as (t & -> & Ht);
    [| | rewrite Ht; reflexivity].
  - reflexivity.
  - intros i t Hi ->. eexists. split; [|reflexivity].
    rewrite (lookup_Some_total inputs i) by lia.
    rewrite (lookup_Some_total (weights l)) by (apply weightIndex_lt; [assumption|lia|lia]).
    reflexivity.
Qed.


(** [delta = outputGradients[o] * derivative(lastOutputs[o])] *)
Definition delta (l : Layer) (og : list float) (o : nat) : float :=
  F32.mul (og !!! o) (activationDerivative (actType l) (lastOutputs l !!! o)).

(** [Σ_(o < n) delta_o * weight[i][o]] over the weights the layer
    had on entry, accumulated from [0.0f] in the order of [o]. *)
Fixpoint input_gradient (l : Layer) (og : list float) (i n : nat) : float :=
  match n with
  | O => F32.zero
  | Datatypes.S k =>
      F32.add (input_gradient l og i k)
              (F32.mul (delta l og k) (weights l !!! weightIndex l i k))
  end.

(** [bias[o] - learningRate * delta] *)
Definition new_bias (l : Layer) (og : list float) (lr : float) (o : nat) : float :=
  F32.sub (biases l !!! o) (F32.mul lr (delta l og o)).

(** [weight[i][o] - learningRate * delta * lastInputs[i]] *)
Definition new_weight (l : Layer) (og : list float) (lr : float) (i o : nat)
    : float :=
  F32.sub (weights l !!! weightIndex l i o)
          (F32.mul (F32.mul lr (delta l og o)) (lastInputs l !!! i)).

Section BackPropagate.
Variables (l : Layer) (og : list float) (lr : float).
Hypothesis Hwf : wf_layer l.
Hypothesis Hog : length og = Z.to_nat (numNodesOut l).
Hypothesis HlastIn : length (lastInputs l) = Z.to_nat (numNodesIn l).
Hypothesis HlastOut : length (lastOutputs l) = Z.to_nat (numNodesOut l).

Let nIn := Z.to_nat (numNodesIn l).
Let nOut := Z.to_nat (numNodesOut l).

(** State of the inner loop of unit [k] before input [j]. *)
Definition inner_inv (k j : nat) (st : list float * list float) : Prop :=
  let '(ig, ws) := st in
  length ig = nIn /\ length ws = length (weights l)
  /\ (forall i, (i < nIn)%nat ->
        ig !! i = Some (input_gradient l og i
                          (if decide (i < j)%nat then Datatypes.S k else k)))
  /\ (forall i o, (i < nIn)%nat -> (o < nOut)%nat ->
        ws !! weightIndex l i o
        = Some (if decide (o < k \/ (o = k /\ i < j))%nat
                then new_weight l og lr i o
                else weights l !!! weightIndex l i o)).

(** State of the outer loop before unit [k]. *)
Definition outer_inv (k : nat)
    (st : list float * list float * list float) : Prop :=
  let '(ig, ws, bs) := st in
  length bs = nOut
  /\ (forall o, (o < nOut)%nat ->
        bs !! o = Some (if decide (o < k)%nat then new_bias l og lr o
                        else biases l !!! o))
  /\ inner_inv k 0 (ig, ws).

Lemma inner_step (k j : nat) (st : list float * list float) :
  (k < nOut)%nat -> (j < nIn)%nat -> inner_inv k j st ->
  exists st',
    (let '(inputGradients, ws) := st in
     let idx := weightIndex l j k in
     gi ← inputGradients !! j;
     w ← ws !! idx;
     inputGradients ← vec_write j (F32.add gi (F32.mul (delta l og k) w)) inputGradients;
     w ← ws !! idx;
     x ← lastInputs l !! j;
     ws ← vec_write idx
            (F32.sub w (F32.mul (F32.mul lr (delta l og k)) x)) ws;
     Some (inputGradients, ws)) = Some st'
    /\ inner_inv k (Datatypes.S j) st'.
Proof.
  intros Hk Hj. destruct st as [ig ws]. intros (Hlig & Hlws & Hig & Hws).
  pose proof (weightIndex_lt l j k Hwf Hj Hk) as Hidx.
  cbv zeta. rewrite (Hig j Hj), (Hws j k Hj Hk).
  destruct (decide (j < j)%nat) as [?|_]; [lia|].
  destruct (decide (k < k \/ k = k /\ j < j)%nat) as [?|_]; [lia|].
  cbn [mbind option_bind].
  rewrite vec_write_Some by lia. cbn [mbind option_bind].
  rewrite (lookup_Some_total (lastInputs l) j) by (fold nIn in Hj; lia).
  cbn [mbind option_bind].
  rewrite vec_write_Some by lia. cbn [mbind option_bind].
  eexists. split; [reflexivity|].
  split; [rewrite length_insert; exact Hlig|].
  split; [rewrite length_insert; exact Hlws|]. split.
  - intros i Hi. destruct (decide (i = j)) as [->|Hne].
    + rewrite list_lookup_insert_eq by lia.
      destruct (decide (j < Datatypes.S j)%nat); [reflexivity | lia].
    + rewrite list_lookup_insert_ne by congruence. rewrite (Hig i Hi).
      destruct (decide (i < j)%nat), (decide (i < Datatypes.S j)%nat);
        (reflexivity || lia).
  - intros i o Hi Ho.
    destruct (decide (weightIndex l j k = weightIndex l i o)) as [E|Hne].
    + apply weightIndex_inj in E as [<- <-]; [|lia|lia].
      rewrite list_lookup_insert_eq by lia.
      destruct (decide _); [reflexivity | lia].
    + rewrite list_lookup_insert_ne by exact Hne. rewrite (Hws i o Hi Ho).
      assert (~ (i = j /\ o = k)) by (intros [-> ->]; congruence).
      destruct (decide (o < k \/ o = k /\ i < j)%nat),
               (decide (o < k \/ o = k /\ i < Datatypes.S j)%nat);
        (reflexivity || lia).
Qed.

Lemma outer_step (k : nat) (st : list float * list float * list float) :
  (k < nOut)%nat -> outer_inv k st ->
  exists st',
    (let '(inputGradients, ws, bs) := st in
     y ← lastOutputs l !! k;
     let derivative := activationDerivative (actType l) y in
     g ← og !! k;
     let delta := F32.mul g derivative in
     b ← bs !! k;
     bs ← vec_write k (F32.sub b (F32.mul lr delta)) bs;
     '(inputGradients, ws) ←
       for_loop 0 (Z.to_nat (numNodesIn l)) (λ i '(inputGradients, ws),
         let idx := weightIndex l i k in
         gi ← inputGradients !! i;
         w ← ws !! idx;
         inputGradients ← vec_write i (F32.add gi (F32.mul delta w)) inputGradients;
         w ← ws !! idx;
         x ← lastInputs l !! i;
         ws ← vec_write idx (F32.sub w (F32.mul (F32.mul lr delta) x)) ws;
         Some (inputGradients, ws)) (inputGradients, ws);
     Some (inputGradients, ws, bs)) = Some st'
    /\ outer_inv (Datatypes.S k) st'.
Proof.
  intros Hk. destruct st as [[ig ws] bs]. intros (Hlbs & Hbs & Hinner).
  cbv zeta. rewrite (lookup_Some_total (lastOutputs l) k) by (fold nOut in Hk; lia).
  cbn [mbind option_bind].
  rewrite (lookup_Some_total og k) by (fold nOut in Hk; lia).
  cbn [mbind option_bind]. fold (delta l og k).
  rewrite (Hbs k Hk). destruct (decide (k < k)%nat) as [?|_]; [lia|].
  cbn [mbind option_bind]. rewrite vec_write_Some by lia.
  cbn [mbind option_bind].
  match goal with
  | |- context [for_loop 0 ?n ?body ?s] =>
      destruct (for_loop_invariant (inner_inv k) body n 0%nat s Hinner)
        as ([ig' ws'] & Hrun & Hinv)
  end.
  { intros j t Hj Ht. apply (inner_step k j t Hk); [lia | exact Ht]. }
  rewrite Hrun. cbn [mbind option_bind].
  eexists. split; [reflexivity|].
  destruct Hinv as (Hlig & Hlws & Hig & Hws).
  split; [rewrite length_insert; exact Hlbs|]. split; [|split; [exact Hlig|split; [exact Hlws|split]]].
  - intros o Ho. destruct (decide (o = k)) as [->|Hne].
    + rewrite list_lookup_insert_eq by lia.
      destruct (decide (k < Datatypes.S k)%nat); [reflexivity | lia].
    + rewrite list_lookup_insert_ne by congruence. rewrite (Hbs o Ho).
      destruct (decide (o < k)%nat), (decide (o < Datatypes.S k)%nat);
        (reflexivity || lia).
  - intros i Hi. rewrite (Hig i Hi). unfold nIn in *.
    repeat case_decide; (reflexivity || lia).
  - intros i o Hi Ho. rewrite (Hws i o Hi Ho). unfold nIn in *.
    repeat case_decide; (reflexivity || lia).
Qed.

End BackPropagate.


End Engine.

(** A layer with two inputs and one ReLU unit, after a forward call. *)
Definition sample_layer : Layer :=
  mkLayer 2 1 ReLU [F32.one; F32.two] [F32.zero]
          [F32.one; F32.one] [F32.of_int 3].

Lemma sample_layer_wf : wf_layer sample_layer.
Proof. split; [unfold sample_layer; simpl; lia .. | reflexivity | reflexivity]. Defined.



End LayerFacts.

(** ** The training step *)

Module TrainFacts.
Import NN.

Section Engine.
Variables exp tanh : float -> float.

(** The backward sweep: [rls] lists the layers last layer first;
    each layer consumes the gradient the layer after it returned. *)
Fixpoint backward (lr : float) (rls : list Layer) (g : list float)
    : option (list float * list Layer) :=
  match rls with
  | [] => Some (g, [])
  | l :: rest =>
      '(g', l') ← backPropagate g lr l;
      '(g'', rest') ← backward lr rest g';
      Some (g'', l' :: rest')
  end.

(** One supervised step as the composition the specification
    describes. *)
Definition train_steps (inputs targets : list float) (lr : float)
    (net : NeuralNetwork) : option NeuralNetwork :=
  '(results, net1) ← feedForward exp tanh inputs net;
  if decide (length results <= length targets)%nat then
    '(_, rls) ← backward lr (reverse (layers net1))
                  (zip_with F32.sub results targets);
    Some (mkNet (reverse rls))
  else None.

(** A layer that differs from [l] in its weights and biases only. *)
Definition same_but_params (l l' : Layer) : Prop :=
  exists ws bs, l' = set_params ws bs l.

(** A layer that differs from [l] in the two vectors a forward call
    stores, [lastInputs] and [lastOutputs], only. *)
Definition same_but_stored (l l' : Layer) : Prop :=
  exists li lo, l' = set_lastOutputs lo (set_lastInputs li l).

Lemma calculateOutput_shape (inputs outputs : list float) (l l' : Layer) :
  calculateOutput exp tanh inputs l = Some (outputs, l') ->
  l' = set_lastOutputs outputs (set_lastInputs inputs l).
Proof.
  unfold calculateOutput. cbv zeta.
  destruct (vec_new _ _); [|discriminate]. cbn [mbind option_bind].
  destruct (for_loop _ _ _ _) as [o|]; [|discriminate].
  cbn [mbind option_bind]. intros [= <- <-]. reflexivity.
Qed.

Lemma feed_shape (ls ls' : list Layer) (inputs result : list float) :
  feed exp tanh inputs ls = Some (result, ls') ->
  Forall2 same_but_stored ls ls'.
Proof.
  revert ls' inputs result. induction ls as [|l ls IH]; intros ls' inputs result.
  - intros [= _ <-]. constructor.
  - cbn [feed].
    destruct (calculateOutput exp tanh inputs l) as [[o l1]|] eqn:E;
      [|discriminate].
    cbn [mbind option_bind].
    destruct (feed exp tanh o ls) as [[r rest]|] eqn:E'; [|discriminate].
    cbn [mbind option_bind]. intros [= _ <-]. constructor.
    + exists inputs, o. exact (calculateOutput_shape _ _ _ _ E).
    + exact (IH _ _ _ E').
Qed.

Lemma gradients_loop (results targets : list float) :
  (length results <= length targets)%nat ->
  for_loop 0 (length results) (λ i gradients,
      r ← results !! i;
      t ← targets !! i;
      Some (gradients ++ [F32.sub r t])) []
  = Some (zip_with F32.sub results targets).
Proof.
  intros Hlen.
  match goal with
  | |- for_loop 0 ?n ?body ?s = _ =>
      destruct (for_loop_invariant
        (λ i g, g = zip_with F32.sub (take i results) (take i targets))
        body n 0%nat s) as (g & -> & ->)
  end.
  - reflexivity.
  - intros i g Hi ->.
    destruct (lookup_lt_is_Some_2 results i ltac:(lia)) as [r Hr].
    destruct (lookup_lt_is_Some_2 targets i ltac:(lia)) as [t Ht].
    rewrite Hr, Ht. cbn [mbind option_bind]. eexists. split; [reflexivity|].
    rewrite (take_S_r results i r Hr), (take_S_r targets i t Ht).
    rewrite zip_with_app by (rewrite !length_take; lia). reflexivity.
  - cbn [Nat.add]. rewrite take_ge by lia.
    f_equal. rewrite <- (take_drop (length results) targets) at 2.
    rewrite <- (app_nil_r results) at 3.
    rewrite zip_with_app by (rewrite length_take; lia).
    rewrite zip_with_nil_l. rewrite app_nil_r. reflexivity.
Qed.

Lemma for_loop_fails {S} (body : nat -> S -> option S) (n lo k : nat) (s : S) :
  (lo <= k < lo + n)%nat -> (forall t, body k t = None) ->
  for_loop lo n body s = None.
Proof.
  revert lo s. induction n as [|n IH]; intros lo s Hk Hnone; [lia|].
  cbn [for_loop]. destruct (decide (k = lo)) as [->|Hne].
  - rewrite Hnone. reflexivity.
  - destruct (body lo s); [|reflexivity]. cbn [mbind option_bind].
    apply IH; [lia | exact Hnone].
Qed.

Lemma gradients_loop_short (results targets : list float) :
  (length targets < length results)%nat ->
  for_loop 0 (length results) (λ i gradients,
      r ← results !! i;
      t ← targets !! i;
      Some (gradients ++ [F32.sub r t])) []
  = None.
Proof.
  intros Hlen. apply (for_loop_fails _ _ _ (length targets)); [lia|].
  intros g. rewrite (lookup_ge_None_2 targets) by lia.
  destruct (results !! length targets); reflexivity.
Qed.

Lemma backward_loop (lr : float) (front back : list Layer) (g : list float) :
  for_down (length front) (λ i '(gradients, ls),
      l ← ls !! i;
      '(gradients, l') ← backPropagate gradients lr l;
      ls ← vec_write i l' ls;
      Some (gradients, ls)) (g, front ++ back)
  = '(g', rfront) ← backward lr (reverse front) g;
    Some (g', reverse rfront ++ back).
Proof.
  revert back g. induction front as [|l front IH] using rev_ind; intros back g.
  - reflexivity.
  - rewrite length_app. cbn [length]. rewrite Nat.add_1_r. cbn [for_down].
    rewrite reverse_snoc. cbn [backward].
    rewrite <- (app_assoc front [l] back).
    change ([l] ++ back) with (l :: back).
    rewrite list_lookup_middle by reflexivity.
    cbn [mbind option_bind].
    destruct (backPropagate g lr l) as [[g' l']|]; [|reflexivity].
    cbn [mbind option_bind].
    rewrite vec_write_Some by (rewrite length_app; cbn [length]; lia).
    cbn [mbind option_bind].
    rewrite insert_app_r_alt by lia. rewrite Nat.sub_diag.
    change (<[0%nat:=l']> (l :: back)) with (l' :: back).
    rewrite IH. destruct (backward lr (reverse front) g') as [[g'' rf]|]; [|reflexivity].
    cbn [mbind option_bind]. rewrite reverse_cons, <- app_assoc. reflexivity.
Qed.

Lemma backPropagate_shape (og : list float) (lr : float) (l l' : Layer)
    (ig : list float) :
  backPropagate og lr l = Some (ig, l') -> same_but_params l l'.
Proof.
  unfold backPropagate. destruct (vec_new _ _); [|discriminate].
  cbn [mbind option_bind].
  destruct (for_loop _ _ _ _) as [[[ig' ws] bs]|]; [|discriminate].
  cbn [mbind option_bind]. intros [= _ <-]. exists ws, bs. reflexivity.
Qed.

Lemma backward_shape (lr : float) (rls rls' : list Layer) (g g' : list float) :
  backward lr rls g = Some (g', rls') -> Forall2 same_but_params rls rls'.
Proof.
  revert rls' g g'. induction rls as [|l rls IH]; intros rls' g g'.
  - intros [= _ <-]. constructor.
  - cbn [backward]. destruct (backPropagate g lr l) as [[g1 l1]|] eqn:E; [|discriminate].
    cbn [mbind option_bind].
    destruct (backward lr rls g1) as [[g2 rest]|] eqn:E'; [|discriminate].
    cbn [mbind option_bind]. intros [= _ <-]. constructor.
    + exact (backPropagate_shape _ _ _ _ _ E).
    + exact (IH _ _ _ E').
Qed.

(** C6, as amended.  [train] is a forward pass, the gradient
    [results[k] - targets[k]] for every output unit, then one
    [backPropagate] per layer from the last to the first, each fed the
    gradient the previous call returned.  It returns no value.  Its
    effects on the network are two: the forward pass overwrites
    [lastInputs] and [lastOutputs] of every layer and nothing else, and
    the backward sweep then changes weights and biases and nothing
    else. *)
Theorem train_spec (inputs targets : list float) (lr : float)
    (net : NeuralNetwork) :
  train exp tanh inputs targets lr net = train_steps inputs targets lr net
  /\ (forall net', train exp tanh inputs targets lr net = Some net' ->
        exists results net1,
          feedForward exp tanh inputs net = Some (results, net1)
          /\ Forall2 same_but_stored (layers net) (layers net1)
          /\ Forall2 same_but_params (layers net1) (layers net')).
Proof.
  assert (Heq : train exp tanh inputs targets lr net
                = train_steps inputs targets lr net).
  { unfold train, train_steps.
    destruct (feedForward exp tanh inputs net) as [[results net1]|]; [|reflexivity].
    cbn [mbind option_bind]. case_decide as Hlen.
    - rewrite gradients_loop by exact Hlen. cbn [mbind option_bind].
      rewrite <- (app_nil_r (layers net1)) at 2.
      rewrite backward_loop.
      destruct (backward _ _ _) as [[g rls]|]; [|reflexivity].
      cbn [mbind option_bind]. rewrite app_nil_r. reflexivity.
    - rewrite gradients_loop_short by lia. reflexivity. }
  split; [exact Heq|].
  intros net'. rewrite Heq. unfold train_steps.
  destruct (feedForward exp tanh inputs net) as [[results net1]|] eqn:Hfwd;
    [|discriminate].
  cbn [mbind option_bind]. case_decide; [|discriminate].
  destruct (backward _ _ _) as [[g rls]|] eqn:E; [|discriminate].
  cbn [mbind option_bind]. intros [= <-]. exists results, net1.
  split; [reflexivity|]. split.
  - unfold feedForward in Hfwd.
    destruct (feed exp tanh inputs (layers net)) as [[r ls]|] eqn:Hfeed;
      [|discriminate].
    cbn [mbind option_bind] in Hfwd. injection Hfwd as _ <-. cbn [layers].
    exact (feed_shape _ _ _ _ Hfeed).
  - cbn [layers]. apply backward_shape in E. apply Forall2_reverse in E.
    rewrite reverse_involutive in E. exact E.
Qed.

End Engine.

(** C6, as stated, fails.  One step on a one-layer network that holds
    the vectors of an earlier forward call: the step returns, and the
    layer it leaves differs from the original in [lastInputs] (now the
    step's inputs), not in weights and biases only. *)
Lemma only_params_counterexample :
  exists net',
    train (λ x, x) (λ x, x) [F32.two; F32.one] [F32.zero] F32.c0_01
      (mkNet [LayerFacts.sample_layer]) = Some net'
    /\ ~ Forall2 same_but_params (layers (mkNet [LayerFacts.sample_layer]))
          (layers net').
Proof.
  eexists. split; [vm_compute; reflexivity|].
  intros H. apply Forall2_cons_1 in H as [(ws & bs & Heq) _].
  apply (f_equal lastInputs) in Heq. vm_compute in Heq. discriminate Heq.
Qed.

End TrainFacts.

(** ** The model file *)

Module ModelFileFacts.
Import NN Bytes BytesFacts LayerFacts.

(** What the objects of a layer are in memory: [int] fields, [float]
    elements, vectors of the sizes the constructor gives them. *)
Record valid_layer (l : Layer) : Prop := {
  valid_wf : wf_layer l;
  valid_in : numNodesIn l < 2 ^ 31;
  valid_out : numNodesOut l < 2 ^ 31;
  valid_size : numNodesIn l * numNodesOut l < 2 ^ 31;
  valid_act : - 2 ^ 31 <= actType l < 2 ^ 31;
  valid_weights : Forall F32.is_f32 (weights l);
  valid_biases : Forall F32.is_f32 (biases l)
}.

Record valid_network (net : NeuralNetwork) : Prop := {
  valid_layers : Forall valid_layer (layers net);
  valid_count : Z.of_nat (length (layers net)) < 2 ^ 31
}.

(** The record of one layer in the file: three [int]-sized fields, the
    third being the [ActivationType] object, then the two vectors. *)
Definition layer_record (l : Layer) : list byte :=
  encode_int (numNodesIn l) ++ encode_int (numNodesOut l)
  ++ encode_int (actType l)
  ++ encode_words (weights l) ++ encode_words (biases l).

Definition model_file (net : NeuralNetwork) : list byte :=
  encode_int (to_int32 (Z.of_nat (length (layers net))))
  ++ mjoin (layer_record <$> layers net).

(** The layout with the activation tag on one byte. *)
Definition layer_record_byte_tag (l : Layer) : list byte :=
  encode_int (numNodesIn l) ++ encode_int (numNodesOut l)
  ++ [byte_of_Z (actType l)]
  ++ encode_words (weights l) ++ encode_words (biases l).

Definition model_file_byte_tag (net : NeuralNetwork) : list byte :=
  encode_int (to_int32 (Z.of_nat (length (layers net))))
  ++ mjoin (layer_record_byte_tag <$> layers net).

(** A layer as [load] rebuilds it: the transient vectors are empty. *)
Definition fresh (l : Layer) : Layer :=
  mkLayer (numNodesIn l) (numNodesOut l) (actType l) (weights l) (biases l) [] [].

Lemma save_layers (ls : list Layer) (file : IO.ofstream) :
  foldl (λ file l, save_layer l file) file ls
  = file ++ mjoin (layer_record <$> ls).
Proof.
  revert file. induction ls as [|l ls IH]; intros file.
  - cbn. rewrite app_nil_r. reflexivity.
  - cbn [foldl]. rewrite IH. unfold save_layer, IO.write, layer_record.
    change (mjoin (?f <$> l :: ls)) with (f l ++ mjoin (f <$> ls)).
    rewrite <- !app_assoc. reflexivity.
Qed.

Lemma save_open_failure (filename : string) (net : NeuralNetwork)
    (fs : IO.FileSystem) :
  IO.open_out fs filename = false -> save filename net fs = (net, fs).
Proof. intros H. unfold save. rewrite H. reflexivity. Qed.

Lemma save_writes (filename : string) (net : NeuralNetwork) (fs : IO.FileSystem) :
  IO.open_out fs filename = true ->
  save filename net fs = (net, IO.close_out fs filename (model_file net)).
Proof.
  intros H. unfold save. rewrite H. cbn [negb].
  rewrite save_layers. reflexivity.
Qed.

Lemma load_open_failure (rnd : nat -> nat -> float) (filename : string)
    (net : NeuralNetwork) (fs : IO.FileSystem) :
  IO.open_in fs filename = None -> load rnd filename net fs = Some net.
Proof. intros H. unfold load. rewrite H. reflexivity. Qed.

Lemma open_in_close_out (fs : IO.FileSystem) (path : string) (bs : list byte) :
  IO.open_out fs path = true ->
  IO.open_in (IO.close_out fs path bs) path = Some bs.
Proof.
  unfold IO.open_out, IO.open_in, IO.close_out. cbn [IO.fs_denied IO.fs_files].
  intros H%bool_decide_eq_true. case_decide; [contradiction|].
  apply lookup_insert_eq.
Qed.

Lemma read_exact (bs rest : list byte) (n : nat) :
  length bs = n ->
  IO.read n (IO.mkIn (bs ++ rest) false) = (bs, IO.mkIn rest false).
Proof.
  intros <-. unfold IO.read. cbn [IO.in_fail IO.in_rest].
  rewrite length_app. case_decide; [|lia].
  rewrite take_app_length, drop_app_length. reflexivity.
Qed.

Lemma read_int_encode (z : Z) (rest : list byte) :
  - 2 ^ 31 <= z < 2 ^ 31 ->
  IO.read_int (IO.mkIn (encode_int z ++ rest) false) = Some (z, IO.mkIn rest false).
Proof.
  intros Hz. unfold IO.read_int, IO.read_scalar.
  rewrite (read_exact (encode_int z) rest 4) by reflexivity.
  rewrite decide_True by reflexivity. cbn [mbind option_bind].
  rewrite decode_int_encode_int by exact Hz. reflexivity.
Qed.

Lemma read_floats_encode (v ws : list float) (rest : list byte) :
  length v = length ws -> Forall F32.is_f32 ws ->
  read_floats v (IO.mkIn (encode_words ws ++ rest) false)
  = (ws, IO.mkIn rest false).
Proof.
  intros Hlen Hws. unfold read_floats. unfold F32.float in *.
  rewrite (read_exact (encode_words ws) rest)
    by (rewrite length_encode_words; lia).
  rewrite overlay_full by (rewrite !length_encode_words; lia).
  rewrite decode_words_encode_words by exact Hws. reflexivity.
Qed.

Lemma load_layer_record (rnd : nat -> float) (l : Layer) (rest : list byte) :
  valid_layer l ->
  load_layer rnd (IO.mkIn (layer_record l ++ rest) false)
  = Some (fresh l, IO.mkIn rest false).
Proof.
  intros [[Hi Ho Hw Hb] Hin Hout Hsize Hact Hws Hbs].
  unfold load_layer, layer_record. rewrite <- !app_assoc.
  rewrite read_int_encode by lia. cbn [mbind option_bind].
  rewrite read_int_encode by lia. cbn [mbind option_bind].
  rewrite read_int_encode by lia. cbn [mbind option_bind].
  unfold Layer_new.
  assert (Hn : 0 <= numNodesIn l * numNodesOut l) by nia.
  destruct (Z.leb_spec (-2147483648) (numNodesIn l * numNodesOut l)); [|lia].
  destruct (Z.leb_spec (numNodesIn l * numNodesOut l) 2147483647); [|lia].
  destruct (Z.ltb_spec (numNodesIn l * numNodesOut l) 0); [lia|].
  destruct (Z.ltb_spec (numNodesOut l) 0); [lia|].
  cbn [negb andb orb mbind option_bind weights biases].
  rewrite read_floats_encode;
    [|rewrite length_fmap, length_seq; lia|exact Hws].
  rewrite read_floats_encode;
    [|rewrite length_fmap, length_seq; lia|exact Hbs].
  reflexivity.
Qed.

Lemma load_layers (rnd : nat -> nat -> float) (ls acc : list Layer)
    (lo : nat) (rest : list byte) :
  Forall valid_layer ls ->
  for_loop lo (length ls) (λ i '(ls, file),
      '(l, file) ← load_layer (rnd i) file;
      Some (ls ++ [l], file))
    (acc, IO.mkIn (mjoin (layer_record <$> ls) ++ rest) false)
  = Some (acc ++ (fresh <$> ls), IO.mkIn rest false).
Proof.
  intros Hls. revert acc lo. induction Hls as [|l ls Hl _ IH]; intros acc lo.
  - cbn. rewrite app_nil_r. reflexivity.
  - cbn [length for_loop].
    change (mjoin (layer_record <$> l :: ls))
      with (layer_record l ++ mjoin (layer_record <$> ls)).
    rewrite <- app_assoc, load_layer_record by exact Hl.
    cbn [mbind option_bind]. rewrite IH.
    rewrite <- app_assoc. reflexivity.
Qed.

Lemma load_model_file (rnd : nat -> nat -> float) (filename : string)
    (net net0 : NeuralNetwork) (fs : IO.FileSystem) :
  valid_network net ->
  IO.open_in fs filename = Some (model_file net) ->
  load rnd filename net0 fs = Some (mkNet (fresh <$> layers net)).
Proof.
  intros [Hls Hcount] Hopen. unfold load. rewrite Hopen. unfold model_file.
  assert (Hn : to_int32 (Z.of_nat (length (layers net)))
               = Z.of_nat (length (layers net))).
  { unfold to_int32. rewrite Z.mod_small by lia.
    destruct (Z.ltb_spec (Z.of_nat (length (layers net))) (2 ^ 31)); lia. }
  rewrite Hn, read_int_encode by lia. cbn [mbind option_bind].
  rewrite Nat2Z.id.
  rewrite <- (app_nil_r (mjoin (layer_record <$> layers net))).
  rewrite load_layers by exact Hls. reflexivity.
Qed.

Lemma encode_words_at (ws : list Z) (k : nat) :
  (k < length ws)%nat ->
  take 4 (drop (4 * k) (encode_words ws)) = encode32 (ws !!! k).
Proof.
  revert k. induction ws as [|w ws IH]; intros k Hk; [cbn in Hk; lia|].
  unfold encode_words.
  change (mjoin (encode32 <$> w :: ws)) with (encode32 w ++ encode_words ws).
  destruct k as [|k].
  - reflexivity.
  - replace (4 * Datatypes.S k)%nat with (length (encode32 w) + 4 * k)%nat
      by (rewrite length_encode32; lia).
    rewrite drop_app_add. cbn [length] in Hk.
    rewrite IH by lia. reflexivity.
Qed.

Section Engine.
Variables exp tanh : float -> float.

Lemma calculateOutput_fresh (inputs : list float) (l : Layer) :
  fst <$> calculateOutput exp tanh inputs (fresh l)
  = fst <$> calculateOutput exp tanh inputs l.
Proof.
  destruct l as [nIn nOut act ws bs li lo].
  unfold calculateOutput, fresh, set_lastInputs, set_lastOutputs, weightIndex.
  cbn [numNodesIn numNodesOut actType weights biases lastInputs lastOutputs].
  destruct (vec_new nOut F32.zero) as [outs|]; [|reflexivity].
  cbn [mbind option_bind].
  destruct (for_loop _ _ _ outs) as [outs'|]; reflexivity.
Qed.

Lemma feed_fresh (ls : list Layer) (inputs : list float) :
  fst <$> feed exp tanh inputs (fresh <$> ls) = fst <$> feed exp tanh inputs ls.
Proof.
  revert inputs. induction ls as [|l ls IH]; intros inputs; [reflexivity|].
  cbn [fmap list_fmap feed]. fold (fresh <$> ls).
  pose proof (calculateOutput_fresh inputs l) as Hc.
  destruct (calculateOutput exp tanh inputs (fresh l)) as [[o1 l1]|],
           (calculateOutput exp tanh inputs l) as [[o2 l2]|];
    try discriminate Hc; [|reflexivity].
  injection Hc as ->. cbn [mbind option_bind].
  specialize (IH o2).
  destruct (feed exp tanh o2 (fresh <$> ls)) as [[r1 t1]|],
           (feed exp tanh o2 ls) as [[r2 t2]|];
    try discriminate IH; [|reflexivity].
  injection IH as ->. reflexivity.
Qed.

(** C9.  A network saved to a file and loaded back from it computes,
    on every input, the outputs of the original, bit for bit. *)
Theorem save_load_feedForward (rnd : nat -> nat -> float) (filename : string)
    (net net0 : NeuralNetwork) (fs : IO.FileSystem) (inputs : list float) :
  valid_network net -> IO.open_out fs filename = true ->
  exists net',
    load rnd filename net0 (save filename net fs).2 = Some net'
    /\ fst <$> feedForward exp tanh inputs net'
       = fst <$> feedForward exp tanh inputs net.
Proof.
  intros Hnet Hopen. rewrite save_writes by exact Hopen. cbn [snd].
  exists (mkNet (fresh <$> layers net)). split.
  - apply load_model_file; [exact Hnet|].
    apply open_in_close_out. exact Hopen.
  - unfold feedForward. cbn [layers].
    pose proof (feed_fresh (layers net) inputs) as H.
    destruct (feed exp tanh inputs (fresh <$> layers net)) as [[r1 t1]|],
             (feed exp tanh inputs (layers net)) as [[r2 t2]|];
      try discriminate H; [|reflexivity].
    injection H as ->. reflexivity.
Qed.

End Engine.

(** C3, as amended.  [save] writes an [int] layer count, then for each
    layer an [int] input width, an [int] output width, the activation
    tag as an [int]-sized object (four bytes, as many as
    [sizeof(ActivationType)]), the weights as [float]s in vector order,
    the weight of input [i] and output [o] at index [i * outputWidth +
    o], then the biases; [load] reads the same fields in the same order
    and sizes. *)
Theorem model_file_layout (rnd : nat -> nat -> float) (filename : string)
    (net net0 : NeuralNetwork) (fs : IO.FileSystem) :
  IO.open_out fs filename = true ->
  IO.open_in (save filename net fs).2 filename = Some (model_file net)
  /\ (forall l, In l (layers net) ->
        length (layer_record l)
        = (4 + 4 + 4 + 4 * length (weights l) + 4 * length (biases l))%nat
        /\ take 4 (drop 8 (layer_record l)) = encode_int (actType l)
        /\ forall i o, wf_layer l ->
             (i < Z.to_nat (numNodesIn l))%nat ->
             (o < Z.to_nat (numNodesOut l))%nat ->
             take 4 (drop (12 + 4 * weightIndex l i o) (layer_record l))
             = encode32 (weights l !!! weightIndex l i o))
  /\ (valid_network net ->
      forall fs', IO.open_in fs' filename = Some (model_file net) ->
        load rnd filename net0 fs' = Some (mkNet (fresh <$> layers net))).
Proof.
  intros Hopen. split; [|split].
  - rewrite save_writes by exact Hopen. apply open_in_close_out. exact Hopen.
  - intros l _. split; [|split].
    + unfold layer_record. rewrite !length_app, !length_encode_int,
        !length_encode_words. unfold F32.float. lia.
    + reflexivity.
    + intros i o Hwf Hi Ho. pose proof (weightIndex_lt l i o Hwf Hi Ho) as Hlt.
      unfold layer_record.
      change (encode_int (numNodesIn l) ++ encode_int (numNodesOut l)
              ++ encode_int (actType l) ++ ?r)
        with ((encode_int (numNodesIn l) ++ encode_int (numNodesOut l)
               ++ encode_int (actType l)) ++ r).
      change 12%nat with (length (encode_int (numNodesIn l)
               ++ encode_int (numNodesOut l) ++ encode_int (actType l))) at 1.
      rewrite drop_app_add.
      assert (Hfit : (4 * weightIndex l i o + 4 <= length (encode_words (weights l)))%nat)
        by (rewrite length_encode_words; unfold F32.float in *; lia).
      rewrite drop_app_le by lia.
      rewrite take_app_le by (rewrite length_drop; lia).
      exact (encode_words_at (weights l) _ Hlt).
  - intros Hnet fs' Hfs'. apply load_model_file; assumption.
Qed.

(** A network of one layer with one input and one output. *)
Definition one_by_one : NeuralNetwork :=
  mkNet [mkLayer 1 1 Sigmoid [F32.one] [F32.zero] [] []].

Definition no_files : IO.FileSystem := IO.mkFS ∅ ∅.

Lemma one_by_one_valid : valid_network one_by_one.
Proof.
  split; [|simpl; lia].
  apply Forall_cons_2; [|apply Forall_nil_2].
  split; cbn [numNodesIn numNodesOut actType weights biases]; try (unfold Sigmoid; lia).
  - split; cbn [numNodesIn numNodesOut weights biases]; (lia || reflexivity).
  - apply Forall_cons_2; [unfold F32.is_f32, F32.one; lia | apply Forall_nil_2].
  - apply Forall_cons_2; [unfold F32.is_f32, F32.zero; lia | apply Forall_nil_2].
Defined.

Lemma save_load_feedForward_witness :
  valid_network one_by_one
  /\ IO.open_out no_files "m" = true
  /\ exists net',
       load (λ _ _, F32.zero) "m" (mkNet []) (save "m" one_by_one no_files).2
         = Some net'
       /\ fst <$> feedForward (λ x, x) (λ x, x) [F32.two] net'
          = fst <$> feedForward (λ x, x) (λ x, x) [F32.two] one_by_one.
Proof.
  split; [exact one_by_one_valid|]. split; [reflexivity|].
  apply (save_load_feedForward (λ x, x) (λ x, x) (λ _ _, F32.zero) "m"
           one_by_one (mkNet []) no_files [F32.two] one_by_one_valid).
  reflexivity.
Defined.

Lemma model_file_layout_witness :
  IO.open_out no_files "m" = true
  /\ IO.open_in (save "m" one_by_one no_files).2 "m" = Some (model_file one_by_one).
Proof.
  split; [reflexivity|].
  apply (model_file_layout (λ _ _, F32.zero) "m" one_by_one (mkNet []) no_files).
  reflexivity.
Defined.

(** C3, as stated, fails: the file [save] writes for a one-layer
    network is not the layout with a one-byte tag (it is three bytes
    longer), and [load] does not rebuild the network from that
    layout. *)
Lemma one_byte_tag_counterexample :
  IO.open_in (save "m" one_by_one no_files).2 "m"
    <> Some (model_file_byte_tag one_by_one)
  /\ load (λ _ _, F32.zero) "m" (mkNet [])
         (IO.close_out no_files "m" (model_file_byte_tag one_by_one))
      <> Some (mkNet (fresh <$> layers one_by_one)).
Proof.
  split.
  - rewrite save_writes by reflexivity. cbn [snd].
    rewrite open_in_close_out by reflexivity.
    intros H. apply (f_equal (fmap length)) in H. vm_compute in H. discriminate H.
  - unfold load. rewrite open_in_close_out by reflexivity.
    vm_compute. discriminate.
Qed.

End ModelFileFacts.

(** C1, the half about [load].  The viewer builds
    [NeuralNetwork net({1, 1, 1})], calls [net.load] and takes an empty
    layer list for the failure signal.  When the file cannot be opened
    [load] returns before it clears the layers: the two layers of the
    constructor are still there. *)
Module LoadFailure.
Import NN ModelFileFacts.

Definition draws : nat -> nat -> float := λ _ _, F32.zero.

Definition viewer_net : NeuralNetwork :=
  mkNet [mkLayer 1 1 Tanh [F32.zero] [F32.zero] [] [];
         mkLayer 1 1 Sigmoid [F32.zero] [F32.zero] [] []].

(** C1 at the failing input: after [load] on a path that cannot be
    opened the layer list of the viewer's network is not empty (it is
    the list the network had before the call). *)
Theorem load_open_failure_keeps_layers :
  NeuralNetwork_new draws [1; 1; 1] = Some viewer_net
  /\ IO.open_in no_files "mnist_model.bin" = None
  /\ load draws "mnist_model.bin" viewer_net no_files = Some viewer_net
  /\ layers viewer_net <> [].
Proof.
  split; [reflexivity|]. split; [reflexivity|]. split.
  - apply load_open_failure. reflexivity.
  - discriminate.
Qed.

End LoadFailure.

(** ** The dataset decoder *)

Module DecoderFacts.
Import Bytes BytesFacts ImgProc.

(** A 32-bit header field as the IDX format stores it: most significant
    byte first. *)
Definition be32 (z : Z) : list byte :=
  [byte_of_Z (Z.shiftr z 24); byte_of_Z (Z.shiftr z 16);
   byte_of_Z (Z.shiftr z 8); byte_of_Z z].

Lemma land_byte_at (x k : Z) :
  0 <= k -> Z.land x (Z.shiftl 255 k) = (x / 2 ^ k) mod 256 * 2 ^ k.
Proof.
  intros Hk. change 256 with (2 ^ 8).
  rewrite <- Z.land_ones, <- Z.shiftr_div_pow2, <- Z.shiftl_mul_pow2 by lia.
  change (Z.ones 8) with 255.
  apply Z.bits_inj'. intros n Hn.
  rewrite Z.land_spec. destruct (Z.lt_ge_cases n k).
  - rewrite !Z.shiftl_spec_low by lia. apply andb_false_r.
  - rewrite !Z.shiftl_spec by lia. rewrite Z.land_spec, Z.shiftr_spec by lia.
    replace (n - k + k) with n by lia. reflexivity.
Qed.

Lemma lor_disjoint (a b k : Z) :
  0 <= k -> 0 <= b < 2 ^ k -> Z.lor (a * 2 ^ k) b = a * 2 ^ k + b.
Proof.
  intros Hk Hb. symmetry. apply Z.add_nocarry_lor.
  apply Z.bits_inj'. intros n Hn. rewrite Z.land_spec, Z.bits_0.
  destruct (Z.lt_ge_cases n k).
  - rewrite Z.mul_pow2_bits_low by lia. reflexivity.
  - destruct (Z.eq_dec b 0) as [->|Hne].
    + rewrite Z.bits_0. apply andb_false_r.
    + rewrite (Z.bits_above_log2 b n); [apply andb_false_r|lia|].
      apply Z.log2_lt_pow2; [lia|].
      apply Z.lt_le_trans with (2 ^ k); [lia|].
      apply Z.pow_le_mono_r; lia.
Qed.

Lemma swapEndian_bytes (b0 b1 b2 b3 : Z) :
  0 <= b0 < 256 -> 0 <= b1 < 256 -> 0 <= b2 < 256 -> 0 <= b3 < 256 ->
  swapEndian (b0 + b1 * 2 ^ 8 + b2 * 2 ^ 16 + b3 * 2 ^ 24)
  = b3 + b2 * 2 ^ 8 + b1 * 2 ^ 16 + b0 * 2 ^ 24.
Proof.
  intros H0 H1 H2 H3. unfold swapEndian.
  set (v := b0 + b1 * 2 ^ 8 + b2 * 2 ^ 16 + b3 * 2 ^ 24).
  change 0xFF000000 with (Z.shiftl 255 24).
  change 0x00FF0000 with (Z.shiftl 255 16).
  change 0x0000FF00 with (Z.shiftl 255 8).
  change 0x000000FF with (Z.shiftl 255 0).
  rewrite !land_byte_at by lia.
  rewrite !Z.shiftl_mul_pow2, !Z.shiftr_div_pow2 by lia.
  assert (E0 : (v * 2 ^ 24 / 2 ^ 24) mod 256 = b0).
  { rewrite Z.div_mul by lia. symmetry.
    apply Z.mod_unique with (q := b1 + b2 * 2 ^ 8 + b3 * 2 ^ 16); unfold v; lia. }
  assert (E1 : (v * 2 ^ 8 / 2 ^ 16) mod 256 = b1).
  { change (2 ^ 16) with (2 ^ 8 * 2 ^ 8).
    rewrite Z.div_mul_cancel_r by lia.
    assert (v / 2 ^ 8 = b1 + b2 * 2 ^ 8 + b3 * 2 ^ 16) as ->
      by (symmetry; apply Z.div_unique with (r := b0); unfold v; lia).
    symmetry. apply Z.mod_unique with (q := b2 + b3 * 2 ^ 8); lia. }
  assert (E2 : (v / 2 ^ 8 / 2 ^ 8) mod 256 = b2).
  { rewrite Z.div_div by lia.
    assert (v / (2 ^ 8 * 2 ^ 8) = b2 + b3 * 2 ^ 8) as ->
      by (symmetry; apply Z.div_unique with (r := b0 + b1 * 2 ^ 8); unfold v; lia).
    symmetry. apply Z.mod_unique with (q := b3); lia. }
  assert (E3 : (v / 2 ^ 24 / 2 ^ 0) mod 256 = b3).
  { rewrite Z.div_1_r.
    assert (v / 2 ^ 24 = b3) as ->
      by (symmetry; apply Z.div_unique with (r := b0 + b1 * 2 ^ 8 + b2 * 2 ^ 16);
          unfold v; lia).
    apply Z.mod_small. lia. }
  rewrite E0, E1, E2, E3.
  change (2 ^ 0) with 1. rewrite Z.mul_1_r.
  rewrite (lor_disjoint b0 (b1 * 2 ^ 16) 24) by lia.
  replace (b0 * 2 ^ 24 + b1 * 2 ^ 16) with ((b0 * 2 ^ 8 + b1) * 2 ^ 16) by lia.
  rewrite (lor_disjoint _ (b2 * 2 ^ 8) 16) by lia.
  replace ((b0 * 2 ^ 8 + b1) * 2 ^ 16 + b2 * 2 ^ 8)
    with ((b0 * 2 ^ 16 + b1 * 2 ^ 8 + b2) * 2 ^ 8) by lia.
  rewrite (lor_disjoint _ b3 8) by lia.
  lia.
Qed.

Lemma swapEndian_be32 (z : Z) :
  0 <= z < 2 ^ 32 -> swapEndian (decode32 (be32 z)) = z.
Proof.
  intros Hz. rewrite <- (decode32_encode32 z Hz) at 2.
  unfold be32, encode32, decode32.
  rewrite swapEndian_bytes by apply Z_of_byte_range. reflexivity.
Qed.

Lemma read_uint32_be32 (z : Z) (rest : list byte) :
  IO.read_uint32 (IO.mkIn (be32 z ++ rest) false)
  = Some (decode32 (be32 z), IO.mkIn rest false).
Proof. reflexivity. Qed.

Lemma read_uchar_cons (b : byte) (rest : list byte) :
  IO.read_uchar (IO.mkIn (b :: rest) false) = Some (b, IO.mkIn rest false).
Proof. reflexivity. Qed.

(** A record of the dataset: its label byte and its pixel bytes. *)
Abbreviation record := (byte * list byte)%type.

Definition image_file (rows cols : Z) (recs : list record) : list byte :=
  be32 2051 ++ be32 (Z.of_nat (length recs)) ++ be32 rows ++ be32 cols
  ++ mjoin (snd <$> recs).

Definition label_file (recs : list record) : list byte :=
  be32 2049 ++ be32 (Z.of_nat (length recs)) ++ (fst <$> recs).

(** Header fields fit their 32 bits, one image fits an [int] size and
    every record has [rows * cols] pixel bytes. *)
Record well_sized (rows cols : Z) (recs : list record) : Prop := {
  sized_rows : 0 <= rows < 2 ^ 32;
  sized_cols : 0 <= cols < 2 ^ 32;
  sized_image : rows * cols < 2 ^ 31;
  sized_count : Z.of_nat (length recs) < 2 ^ 32;
  sized_pixels : Forall (λ r : record, length r.2 = Z.to_nat (rows * cols)) recs
}.

(** The raw byte divided by 255. *)
Definition normalize (b : byte) : float :=
  F32.div (F32.of_int (Z_of_byte b)) F32.c255.

(** Ten zeros, with a one at the label when the label is a digit. *)
Definition target_of (label : Z) : list float :=
  if (0 <=? label) && (label <? 10)
  then <[Z.to_nat label := F32.one]> (replicate 10 F32.zero)
  else replicate 10 F32.zero.

Definition sample_of (r : record) : Image :=
  mkImage (normalize <$> r.2) (target_of (Z_of_byte r.1)) (Z_of_byte r.1).

Lemma pixels_loop (buf : list byte) (acc : list float) :
  for_loop 0 (length buf) (λ j pixels,
      b ← buf !! j;
      Some (pixels ++ [F32.div (F32.of_int (Z_of_byte b)) F32.c255])) acc
  = Some (acc ++ (normalize <$> buf)).
Proof.
  match goal with
  | |- for_loop 0 ?n ?body ?s = _ =>
      destruct (for_loop_invariant
        (λ j px, px = acc ++ (normalize <$> take j buf)) body n 0%nat s)
        as (px & -> & ->)
  end.
  - cbn. rewrite app_nil_r. reflexivity.
  - intros j px Hj ->.
    destruct (lookup_lt_is_Some_2 buf j ltac:(lia)) as [b Hb].
    rewrite Hb. cbn [mbind option_bind]. eexists. split; [reflexivity|].
    rewrite (take_S_r buf j b Hb), fmap_app, app_assoc. reflexivity.
  - cbn [Nat.add]. rewrite take_ge by lia. reflexivity.
Qed.

Lemma load_record_ok (imageSize : Z) (r : record) (restI restL : list byte) :
  0 <= imageSize -> length r.2 = Z.to_nat imageSize ->
  load_record imageSize (mkImage [] [] 0)
    (IO.mkIn (r.2 ++ restI) false) (IO.mkIn (r.1 :: restL) false)
  = Some (sample_of r, IO.mkIn restI false, IO.mkIn restL false).
Proof.
  intros Hsize Hlen. unfold load_record.
  destruct (Z.ltb_spec imageSize 0); [lia|].
  rewrite read_uchar_cons. cbn [mbind option_bind].
  assert (Ht : (if (0 <=? Z_of_byte r.1) && (Z_of_byte r.1 <? 10)
                then vec_write (Z.to_nat (Z_of_byte r.1)) F32.one
                       (replicate 10 F32.zero)
                else Some (replicate 10 F32.zero))
               = Some (target_of (Z_of_byte r.1))).
  { unfold target_of. destruct (Z.leb_spec 0 (Z_of_byte r.1)); [|reflexivity].
    destruct (Z.ltb_spec (Z_of_byte r.1) 10); [|reflexivity].
    cbn [andb]. apply vec_write_Some. rewrite length_replicate. lia. }
  rewrite Ht. cbn [mbind option_bind].
  rewrite vec_new_Some by lia. cbn [mbind option_bind].
  rewrite (ModelFileFacts.read_exact r.2 restI) by exact Hlen.
  rewrite overlay_full by (rewrite length_replicate; lia).
  rewrite <- Hlen, pixels_loop. reflexivity.
Qed.

Lemma load_records (imageSize : Z) (todo done : list record)
    (restI restL : list byte) :
  0 <= imageSize ->
  Forall (λ r : record, length r.2 = Z.to_nat imageSize) todo ->
  for_loop (length done) (length todo) (λ i '(dataset, imgFile, lblFile),
      img ← dataset !! i;
      '(img, imgFile, lblFile) ← load_record imageSize img imgFile lblFile;
      dataset ← vec_write i img dataset;
      Some (dataset, imgFile, lblFile))
    ((sample_of <$> done) ++ replicate (length todo) (mkImage [] [] 0),
     IO.mkIn (mjoin (snd <$> todo) ++ restI) false,
     IO.mkIn ((fst <$> todo) ++ restL) false)
  = Some ((sample_of <$> done) ++ (sample_of <$> todo),
          IO.mkIn restI false, IO.mkIn restL false).
Proof.
  intros Hsize Htodo. revert done.
  induction Htodo as [|r todo Hr _ IH]; intros done; [reflexivity|].
  cbn [length for_loop replicate].
  assert (Hd : length (sample_of <$> done) = length done) by apply length_fmap.
  rewrite list_lookup_middle by (symmetry; exact Hd).
  cbn [mbind option_bind].
  change (mjoin (snd <$> r :: todo)) with (r.2 ++ mjoin (snd <$> todo)).
  change (fst <$> r :: todo) with (r.1 :: (fst <$> todo)).
  rewrite <- app_assoc. cbn [app].
  rewrite load_record_ok by assumption. cbn [mbind option_bind].
  rewrite vec_write_Some by (rewrite length_app; cbn [length]; lia).
  cbn [mbind option_bind].
  rewrite insert_app_r_alt by lia. rewrite Hd, Nat.sub_diag.
  change (<[0%nat:=?x]> (?y :: ?l)) with (x :: l).
  specialize (IH (done ++ [r])).
  rewrite length_app, Nat.add_1_r, fmap_app, <- !app_assoc in IH.
  exact IH.
Qed.

Lemma normalize_range (b : byte) :
  F32.leb F32.zero (normalize b) = true /\ F32.leb (normalize b) F32.one = true.
Proof. destruct b; vm_compute; split; reflexivity. Qed.

Lemma load_decodes (imagePath labelPath : string) (fs : IO.FileSystem)
    (rows cols : Z) (recs : list record) :
  well_sized rows cols recs ->
  IO.open_in fs imagePath = Some (image_file rows cols recs) ->
  IO.open_in fs labelPath = Some (label_file recs) ->
  load imagePath labelPath fs = Some (sample_of <$> recs).
Proof.
  intros [Hrows Hcols Himage Hcount Hpixels] HopenI HopenL.
  unfold load. rewrite HopenI, HopenL. unfold image_file, label_file.
  repeat (rewrite read_uint32_be32; cbn [mbind option_bind]).
  rewrite !swapEndian_be32 by lia.
  change (2051 =? 2051) with true. change (2049 =? 2049) with true.
  rewrite Z.eqb_refl. cbn [negb orb].
  assert (Hsize : to_int32 ((rows * cols) mod 2 ^ 32) = rows * cols).
  { assert (0 <= rows * cols) by nia.
    unfold to_int32. rewrite Z.mod_mod, Z.mod_small by lia.
    destruct (Z.ltb_spec (rows * cols) (2 ^ 31)); lia. }
  rewrite Hsize, Nat2Z.id.
  rewrite <- (app_nil_r (mjoin (snd <$> recs))), <- (app_nil_r (fst <$> recs)).
  pose proof (load_records (rows * cols) recs [] [] [] ltac:(nia) Hpixels) as H.
  cbn [length fmap list_fmap app] in H. rewrite H. reflexivity.
Qed.

(** C7.  On a well-formed pair of files [load] returns one sample per
    record, in file order; every pixel is the raw byte divided by 255
    and lies in [0, 1]; the label is the label byte, in [0, 9]; the
    target has ten entries, one at the label and zero elsewhere. *)
Theorem load_well_formed (imagePath labelPath : string) (fs : IO.FileSystem)
    (rows cols : Z) (recs : list record) :
  well_sized rows cols recs ->
  Forall (λ r : record, Z_of_byte r.1 < 10) recs ->
  IO.open_in fs imagePath = Some (image_file rows cols recs) ->
  IO.open_in fs labelPath = Some (label_file recs) ->
  exists dataset,
    load imagePath labelPath fs = Some dataset
    /\ length dataset = length recs
    /\ forall i r, recs !! i = Some r ->
         exists s, dataset !! i = Some s
           /\ pixels s = (λ b, F32.div (F32.of_int (Z_of_byte b)) F32.c255) <$> r.2
           /\ Forall (λ p, F32.leb F32.zero p = true /\ F32.leb p F32.one = true)
                (pixels s)
           /\ label s = Z_of_byte r.1
           /\ 0 <= label s <= 9
           /\ length (target s) = 10%nat
           /\ forall k, (k < 10)%nat ->
                target s !! k
                = Some (if decide (Z.of_nat k = label s) then F32.one else F32.zero).
Proof.
  intros Hsized Hlabels HopenI HopenL.
  exists (sample_of <$> recs).
  split; [apply (load_decodes _ _ _ rows cols); assumption|].
  split; [apply length_fmap|].
  intros i r Hr. exists (sample_of r).
  split; [rewrite list_lookup_fmap, Hr; reflexivity|].
  assert (Hlt : Z_of_byte r.1 < 10)
    by (apply (proj1 (Forall_forall _ _) Hlabels), list_elem_of_lookup; eauto).
  pose proof (Z_of_byte_range r.1) as Hrange.
  cbn [sample_of pixels label target].
  split; [reflexivity|]. split.
  { apply Forall_fmap, Forall_forall. intros b _. apply normalize_range. }
  split; [reflexivity|]. split; [lia|].
  unfold target_of.
  destruct (Z.leb_spec 0 (Z_of_byte r.1)); [|lia].
  destruct (Z.ltb_spec (Z_of_byte r.1) 10); [|lia]. cbn [andb].
  split; [rewrite length_insert; apply length_replicate|].
  intros k Hk. case_decide as Hd.
  - rewrite <- Hd, Nat2Z.id. apply list_lookup_insert_eq.
    rewrite length_replicate. exact Hk.
  - rewrite list_lookup_insert_ne by lia. apply lookup_replicate_2. exact Hk.
Qed.

(** C8.  When the image magic number is not 2051, or the label magic
    number is not 2049, or the two counts differ, [load] returns
    normally with an empty dataset. *)
Theorem load_rejects (imagePath labelPath : string) (fs : IO.FileSystem)
    (magicImg numImg rows cols magicLbl numLbl : Z) (restI restL : list byte) :
  0 <= magicImg < 2 ^ 32 -> 0 <= numImg < 2 ^ 32 ->
  0 <= magicLbl < 2 ^ 32 -> 0 <= numLbl < 2 ^ 32 ->
  IO.open_in fs imagePath
    = Some (be32 magicImg ++ be32 numImg ++ be32 rows ++ be32 cols ++ restI) ->
  IO.open_in fs labelPath = Some (be32 magicLbl ++ be32 numLbl ++ restL) ->
  magicImg <> 2051 \/ magicLbl <> 2049 \/ numImg <> numLbl ->
  load imagePath labelPath fs = Some [].
Proof.
  intros HmI HnI HmL HnL HopenI HopenL Hbad.
  unfold load. rewrite HopenI, HopenL.
  repeat (rewrite read_uint32_be32; cbn [mbind option_bind]).
  rewrite !(swapEndian_be32 magicImg), !(swapEndian_be32 magicLbl),
    !(swapEndian_be32 numImg), !(swapEndian_be32 numLbl) by lia.
  destruct (Z.eqb_spec magicImg 2051); [|reflexivity].
  destruct (Z.eqb_spec magicLbl 2049); [|reflexivity].
  destruct (Z.eqb_spec numImg numLbl); [|reflexivity].
  lia.
Qed.

(** C10.  A record whose label byte is not a digit still yields a
    sample, at the position of the record; its target is ten zeros and
    the call returns normally, so nothing was written outside the
    target vector. *)
Theorem load_label_out_of_range (imagePath labelPath : string)
    (fs : IO.FileSystem) (rows cols : Z) (recs : list record)
    (i : nat) (r : record) :
  well_sized rows cols recs ->
  IO.open_in fs imagePath = Some (image_file rows cols recs) ->
  IO.open_in fs labelPath = Some (label_file recs) ->
  recs !! i = Some r -> 10 <= Z_of_byte r.1 ->
  exists dataset s,
    load imagePath labelPath fs = Some dataset
    /\ length dataset = length recs
    /\ dataset !! i = Some s
    /\ label s = Z_of_byte r.1
    /\ target s = replicate 10 F32.zero
    /\ pixels s = (λ b, F32.div (F32.of_int (Z_of_byte b)) F32.c255) <$> r.2.
Proof.
  intros Hsized HopenI HopenL Hr Hlabel.
  exists (sample_of <$> recs), (sample_of r).
  split; [apply (load_decodes _ _ _ rows cols); assumption|].
  split; [apply length_fmap|].
  split; [rewrite list_lookup_fmap, Hr; reflexivity|].
  split; [reflexivity|]. split; [|reflexivity].
  cbn [sample_of target]. unfold target_of.
  destruct (Z.ltb_spec (Z_of_byte r.1) 10); [lia|].
  rewrite andb_false_r. reflexivity.
Qed.

(** Two records of two pixels each, and the files that hold them. *)
Definition two_records : list record :=
  [(x03, [x00; xff]); (x0a, [x80; x01])].

Definition digit_records : list record :=
  [(x03, [x00; xff]); (x07, [x80; x01])].

Definition files_of (recs : list record) : IO.FileSystem :=
  IO.mkFS (<["img" := image_file 1 2 recs]> (<["lbl" := label_file recs]> ∅)) ∅.

Lemma two_pixels_sized (recs : list record) :
  Forall (λ r : record, length r.2 = 2%nat) recs ->
  Z.of_nat (length recs) < 2 ^ 32 -> well_sized 1 2 recs.
Proof. intros H Hn. split; [lia | lia | lia | exact Hn | exact H]. Defined.

Lemma load_well_formed_witness :
  well_sized 1 2 digit_records
  /\ Forall (λ r : record, Z_of_byte r.1 < 10) digit_records
  /\ IO.open_in (files_of digit_records) "img" = Some (image_file 1 2 digit_records)
  /\ IO.open_in (files_of digit_records) "lbl" = Some (label_file digit_records)
  /\ exists dataset,
       load "img" "lbl" (files_of digit_records) = Some dataset
       /\ length dataset = length digit_records.
Proof.
  assert (Hsized : well_sized 1 2 digit_records).
  { apply two_pixels_sized; [|simpl; lia].
    apply Forall_cons_2; [reflexivity|].
    apply Forall_cons_2; [reflexivity | apply Forall_nil_2]. }
  assert (Hdigits : Forall (λ r : record, Z_of_byte r.1 < 10) digit_records).
  { apply Forall_cons_2; [vm_compute; reflexivity|].
    apply Forall_cons_2; [vm_compute; reflexivity | apply Forall_nil_2]. }
  split; [exact Hsized|]. split; [exact Hdigits|].
  split; [reflexivity|]. split; [reflexivity|].
  destruct (load_well_formed "img" "lbl" (files_of digit_records) 1 2
              digit_records Hsized Hdigits eq_refl eq_refl)
    as (dataset & Hrun & Hlen & _).
  exists dataset. split; [exact Hrun | exact Hlen].
Defined.

Lemma load_rejects_witness :
  (0 <= 2050 < 2 ^ 32 /\ 0 <= 1 < 2 ^ 32 /\ 0 <= 2049 < 2 ^ 32 /\ 0 <= 1 < 2 ^ 32)
  /\ (2050 <> 2051 \/ 2049 <> 2049 \/ 1 <> 1)
  /\ load "img" "lbl"
       (IO.mkFS (<["img" := be32 2050 ++ be32 1 ++ be32 1 ++ be32 2 ++ [x00; xff]]>
                   (<["lbl" := be32 2049 ++ be32 1 ++ [x03]]> ∅)) ∅)
     = Some [].
Proof.
  split; [lia|]. split; [left; lia|].
  apply (load_rejects "img" "lbl" _ 2050 1 1 2 2049 1 [x00; xff] [x03]);
    [lia | lia | lia | lia | reflexivity | reflexivity | left; lia].
Defined.

Lemma load_label_out_of_range_witness :
  well_sized 1 2 two_records
  /\ two_records !! 1%nat = Some (x0a, [x80; x01])
  /\ 10 <= Z_of_byte x0a
  /\ exists dataset s,
       load "img" "lbl" (files_of two_records) = Some dataset
       /\ dataset !! 1%nat = Some s
       /\ target s = replicate 10 F32.zero.
Proof.
  assert (Hsized : well_sized 1 2 two_records).
  { apply two_pixels_sized; [|simpl; lia].
    apply Forall_cons_2; [reflexivity|].
    apply Forall_cons_2; [reflexivity | apply Forall_nil_2]. }
  assert (Hlabel : 10 <= Z_of_byte x0a) by (vm_compute; discriminate).
  split; [exact Hsized|]. split; [reflexivity|]. split; [exact Hlabel|].
  destruct (load_label_out_of_range "img" "lbl" (files_of two_records) 1 2
              two_records 1%nat (x0a, [x80; x01]) Hsized eq_refl eq_refl eq_refl
              Hlabel)
    as (dataset & s & Hrun & _ & Hs & _ & Ht & _).
  exists dataset, s. split; [exact Hrun|]. split; [exact Hs | exact Ht].
Defined.

End DecoderFacts.

(** ** binary32 comparisons and floors *)

Module F32Facts.
Import F32.

(** The literals are the floats the compiler reads them as. *)
Example literals :
  of_int 0 = zero /\ of_int 1 = one /\ of_int 2 = two /\ of_int 255 = c255
  /\ div one (of_int 100) = c0_01.
Proof. vm_compute. repeat split. Qed.

(** Derivatives at sample points: sigmoid at 0.5, tanh at 0, ReLU at 0
    and at 1. *)
Example derivative_samples :
  NN.activationDerivative NN.Sigmoid (div one two) = div one (of_int 4)
  /\ NN.activationDerivative NN.Tanh zero = one
  /\ NN.activationDerivative NN.ReLU zero = zero
  /\ NN.activationDerivative NN.ReLU one = one.
Proof. vm_compute. repeat split. Qed.

(** The floats that bit patterns denote are in canonical form. *)
Lemma of_bits_canonical (w : float) :
  match of_bits w with
  | S754_finite _ m e =>
      -149 <= e /\ Zpos m < 2 ^ 24 /\ (2 ^ 23 <= Zpos m \/ e = -149)
  | _ => True
  end.
Proof.
  unfold of_bits.
  change 8388607 with (Z.ones 23). change 255 with (Z.ones 8).
  rewrite !Z.land_ones by lia.
  pose proof (Z.mod_pos_bound w (2 ^ 23) ltac:(lia)) as Hm.
  pose proof (Z.mod_pos_bound (Z.shiftr w 23) (2 ^ 8) ltac:(lia)) as He.
  destruct (Z.eqb_spec (Z.shiftr w 23 mod 2 ^ 8) 0) as [E0|E0].
  - destruct (w mod 2 ^ 23) as [|p|p] eqn:Ep; try exact I. lia.
  - destruct (Z.eqb_spec (Z.shiftr w 23 mod 2 ^ 8) (Z.ones 8)) as [E1|E1].
    + destruct (_ =? 0); exact I.
    + change 8388608 with (2 ^ 23).
      destruct (w mod 2 ^ 23 + 2 ^ 23) as [|p|p] eqn:Ep; try exact I.
      change (Z.ones 8) with 255 in E1. lia.
Qed.

(** The conversion of [n] to [float] is exact. *)
Definition exact_int (n : Z) : Prop :=
  match of_bits (of_int n) with
  | S754_zero _ => n = 0
  | S754_finite false m e => -149 <= e /\ Zpos m * 2 ^ (e + 149) = n * 2 ^ 149
  | _ => False
  end.

Lemma finite_below (ma mb : positive) (ea eb n : Z) :
  -149 <= ea -> Zpos ma < 2 ^ 24 ->
  -149 <= eb -> (2 ^ 23 <= Zpos mb \/ eb = -149) ->
  Zpos mb * 2 ^ (eb + 149) = n * 2 ^ 149 ->
  SFleb (S754_finite false mb eb) (S754_finite false ma ea) = false ->
  Zpos ma * 2 ^ (ea + 149) < n * 2 ^ 149.
Proof.
  intros Hea Hma Heb Hmb Hn. unfold SFleb, SFcompare. rewrite <- Hn.
  destruct (Z.compare_spec eb ea) as [->|Hlt|Hgt]; try discriminate.
  - change (Pos.compare_cont Eq mb ma) with (Pos.compare mb ma).
    destruct (Pos.compare_spec mb ma) as [->|Hlt|Hgt]; try discriminate.
    intros _. apply Z.mul_lt_mono_pos_r; [apply Z.pow_pos_nonneg; lia | lia].
  - intros _. destruct Hmb as [Hmb| ->]; [|lia].
    apply Z.lt_le_trans with (2 ^ 24 * 2 ^ (ea + 149)).
    + apply Z.mul_lt_mono_pos_r; [apply Z.pow_pos_nonneg; lia | exact Hma].
    + apply Z.le_trans with (2 ^ 23 * 2 ^ (eb + 149)).
      * change (2 ^ 24) with (2 ^ 23 * 2 ^ 1). rewrite <- Z.mul_assoc, <- Z.pow_add_r by lia.
        apply Z.mul_le_mono_nonneg_l; [lia|]. apply Z.pow_le_mono_r; lia.
      * apply Z.mul_le_mono_nonneg_r; [apply Z.pow_nonneg; lia | exact Hmb].
Qed.

Lemma floor_below (m : positive) (e n : Z) :
  -149 <= e -> Zpos m * 2 ^ (e + 149) < n * 2 ^ 149 ->
  0 <= (if 0 <=? e then Z.shiftl (Zpos m) e else Z.shiftr (Zpos m) (- e)) < n.
Proof.
  intros He Hlt. destruct (Z.leb_spec 0 e) as [Hpos|Hneg].
  - rewrite Z.shiftl_mul_pow2 by lia.
    rewrite Z.pow_add_r, Z.mul_assoc in Hlt by lia.
    split; [apply Z.mul_nonneg_nonneg; [lia | apply Z.pow_nonneg; lia]|].
    apply Z.mul_lt_mono_pos_r in Hlt; [exact Hlt | reflexivity].
  - rewrite Z.shiftr_div_pow2 by lia.
    assert (Hk : 0 < 2 ^ (- e)) by (apply Z.pow_pos_nonneg; lia).
    split; [apply Z.div_pos; lia|].
    apply Z.div_lt_upper_bound; [exact Hk|].
    replace 149 with (- e + (e + 149)) in Hlt at 2 by lia.
    rewrite (Z.pow_add_r 2 (- e) (e + 149)), Z.mul_assoc in Hlt by lia.
    apply Z.mul_lt_mono_pos_r in Hlt; [lia | apply Z.pow_pos_nonneg; lia].
Qed.

(** A float that is not NaN and passes [!(a < 0) && !(a >= n)] has its
    floor in [[0, n - 1]]. *)
Lemma below_floor (a : float) (n : Z) :
  0 <= n < 2 ^ 31 -> exact_int n -> of_bits a <> S754_nan ->
  ltb a (of_int 0) = false -> leb (of_int n) a = false ->
  exists q, floor_int a = Some q /\ 0 <= q < n.
Proof.
  intros Hn Hexact Hnan. unfold ltb, leb, floor_int, exact_int in *.
  replace (of_bits (of_int 0)) with (S754_zero false) by (vm_compute; reflexivity).
  pose proof (of_bits_canonical a) as Ca.
  pose proof (of_bits_canonical (of_int n)) as Cb.
  destruct (of_bits a) as [sa|sa| |sa ma ea];
    destruct (of_bits (of_int n)) as [sb|sb| |[|] mb eb];
    try contradiction; cbn [SFltb SFleb SFcompare]; try discriminate.
  - (* a = 0, n > 0 *)
    intros _ _. exists 0. split; [reflexivity|].
    destruct Hexact as [Heb Hval].
    assert (0 < n * 2 ^ 149) by (rewrite <- Hval; apply Z.mul_pos_pos;
      [lia | apply Z.pow_pos_nonneg; lia]). lia.
  - destruct sa; discriminate.
  - destruct sa; discriminate.
  - destruct sa; discriminate.
  - destruct sa; intros H1 H2; try discriminate.
    destruct Hexact as [Heb Hval]. destruct Ca as (Hea & Hma & _).
    destruct Cb as (_ & _ & Hmb).
    pose proof (finite_below ma mb ea eb n Hea Hma Heb Hmb Hval H2) as Hlt.
    pose proof (floor_below ma ea n Hea Hlt) as Hq.
    cbn [cond_Zopp].
    eexists. split; [|exact Hq].
    destruct (Z.leb_spec (-2147483648)
      (if 0 <=? ea then Z.shiftl (Z.pos ma) ea else Z.shiftr (Z.pos ma) (- ea))); [|lia].
    destruct (Z.leb_spec
      (if 0 <=? ea then Z.shiftl (Z.pos ma) ea else Z.shiftr (Z.pos ma) (- ea))
      2147483647); [reflexivity | lia].
Qed.

End F32Facts.

(** ** The rescaling transform *)

Module ScaleFacts.
Import ImgProc F32Facts.

(** A loop that stores [f i] at [base + i] for every [i < n]. *)
Section WriteLoop.
Context {A : Type} (f : nat -> option A) (base : nat).

Definition store (i : nat) (out : list A) : option (list A) :=
  v ← f i; vec_write (base + i) v out.

Lemma write_loop (n : nat) (out : list A) :
  (base + n <= length out)%nat ->
  (forall i, (i < n)%nat -> is_Some (f i)) ->
  exists out',
    for_loop 0 n store out = Some out'
    /\ length out' = length out
    /\ (forall i, (i < n)%nat -> out' !! (base + i)%nat = f i)
    /\ (forall k, (k < base \/ base + n <= k)%nat -> out' !! k = out !! k).
Proof.
  intros Hfit Hdef.
  destruct (for_loop_invariant
    (λ j o, length o = length out
            /\ (forall i, (i < j)%nat -> o !! (base + i)%nat = f i)
            /\ (forall k, (k < base \/ base + j <= k)%nat -> o !! k = out !! k))
    store n 0%nat out) as (out' & Hrun & Hlen & Hval & Hrest).
  - split; [reflexivity|]. split; [intros; lia | reflexivity].
  - intros j o Hj (Hlen & Hval & Hrest).
    destruct (Hdef j ltac:(lia)) as [v Hv].
    unfold store. rewrite Hv. cbn [mbind option_bind].
    rewrite vec_write_Some by lia. eexists. split; [reflexivity|].
    split; [rewrite length_insert; exact Hlen|]. split.
    + intros i Hi. destruct (decide (i = j)) as [->|Hne].
      * rewrite list_lookup_insert_eq by lia. symmetry. exact Hv.
      * rewrite list_lookup_insert_ne by lia. apply Hval. lia.
    + intros k Hk. rewrite list_lookup_insert_ne by lia. apply Hrest. lia.
  - exists out'. split; [exact Hrun|]. split; [exact Hlen|].
    split; [exact Hval | exact Hrest].
Qed.

Lemma write_loop_defined (n lo : nat) (out out' : list A) :
  for_loop lo n store out = Some out' ->
  forall i, (lo <= i < lo + n)%nat -> is_Some (f i).
Proof.
  revert lo out. induction n as [|n IH]; intros lo out Hrun i Hi; [lia|].
  cbn [for_loop] in Hrun.
  destruct (store lo out) as [o|] eqn:E; [|discriminate Hrun].
  cbn [mbind option_bind] in Hrun.
  destruct (decide (i = lo)) as [->|Hne].
  - unfold store in E. destruct (f lo); [eauto | discriminate E].
  - apply (IH _ _ Hrun). lia.
Qed.
End WriteLoop.

Lemma for_loop_defined {S} (body : nat -> S -> option S) (n lo : nat) (s t : S) :
  for_loop lo n body s = Some t ->
  forall i, (lo <= i < lo + n)%nat -> exists u, is_Some (body i u).
Proof.
  revert lo s. induction n as [|n IH]; intros lo s Hrun i Hi; [lia|].
  cbn [for_loop] in Hrun.
  destruct (body lo s) as [o|] eqn:E; [|discriminate Hrun].
  cbn [mbind option_bind] in Hrun.
  destruct (decide (i = lo)) as [->|Hne].
  - exists s. rewrite E. eauto.
  - apply (IH _ _ Hrun). lia.
Qed.

Section Pixel.
Variables (src : list float) (scale : float) (srcW srcH dstW dstH : Z).

(** The interpolation of the four neighbours of [(sx, sy)], with the
    weights [wx = sx - floor(sx)] and [wy = sy - floor(sy)]; the
    neighbours' coordinates and indices are [int] expressions. *)
Definition bilinear (sx sy : float) : option float :=
  x0 ← F32.floor_int sx;
  y0 ← F32.floor_int sy;
  x1 ← as_int (x0 + 1);
  y1 ← as_int (y0 + 1);
  let wx := F32.sub sx (F32.of_int x0) in
  let wy := F32.sub sy (F32.of_int y0) in
  v00 ← pixel_at src srcW y0 x0;
  v10 ← pixel_at src srcW y0 x1;
  v01 ← pixel_at src srcW y1 x0;
  v11 ← pixel_at src srcW y1 x1;
  Some (lerp (lerp v00 v10 wx) (lerp v01 v11 wx) wy).

(** The value of the destination pixel [(x, y)]. *)
Local Abbreviation scalePixel x y :=
  (if outside srcW srcH (source_x scale srcW dstW (Z.of_nat x))
                        (source_y scale srcH dstH (Z.of_nat y))
   then Some F32.zero
   else bilinear (source_x scale srcW dstW (Z.of_nat x))
                 (source_y scale srcH dstH (Z.of_nat y))).

Lemma pixel_store (sx sy : float) (idx : nat) (o : list float) :
  (if outside srcW srcH sx sy then vec_write idx F32.zero o
   else
     x0 ← F32.floor_int sx;
     y0 ← F32.floor_int sy;
     x1 ← as_int (x0 + 1);
     y1 ← as_int (y0 + 1);
     v00 ← pixel_at src srcW y0 x0;
     v10 ← pixel_at src srcW y0 x1;
     v01 ← pixel_at src srcW y1 x0;
     v11 ← pixel_at src srcW y1 x1;
     vec_write idx
       (lerp (lerp v00 v10 (F32.sub sx (F32.of_int x0)))
             (lerp v01 v11 (F32.sub sx (F32.of_int x0)))
             (F32.sub sy (F32.of_int y0))) o)
  = (v ← (if outside srcW srcH sx sy then Some F32.zero else bilinear sx sy);
     vec_write idx v o).
Proof.
  unfold bilinear. destruct (outside srcW srcH sx sy); [reflexivity|].
  destruct (F32.floor_int sx) as [x0|]; cbn [mbind option_bind]; [|reflexivity].
  destruct (F32.floor_int sy) as [y0|]; cbn [mbind option_bind]; [|reflexivity].
  destruct (as_int (x0 + 1)) as [x1|]; cbn [mbind option_bind]; [|reflexivity].
  destruct (as_int (y0 + 1)) as [y1|]; cbn [mbind option_bind]; [|reflexivity].
  destruct (pixel_at src srcW y0 x0); cbn [mbind option_bind]; [|reflexivity].
  destruct (pixel_at src srcW y0 x1); cbn [mbind option_bind]; [|reflexivity].
  destruct (pixel_at src srcW y1 x0); cbn [mbind option_bind]; [|reflexivity].
  destruct (pixel_at src srcW y1 x1); cbn [mbind option_bind]; reflexivity.
Qed.

Lemma scaleImage_rows :
  scaleImage src scale srcW srcH dstW dstH
  = size ← as_int (dstW * dstH);
    out ← vec_new size F32.zero;
    _ ← as_int (srcW - 1);
    _ ← as_int (srcH - 1);
    _ ← as_int (dstW - 1);
    _ ← as_int (dstH - 1);
    for_loop 0 (Z.to_nat dstH) (λ y out,
      for_loop 0 (Z.to_nat dstW)
        (store (λ x, scalePixel x y) (y * Z.to_nat dstW)) out) out.
Proof.
  unfold scaleImage. destruct (as_int (dstW * dstH)) as [size|]; [|reflexivity].
  cbn [mbind option_bind]. destruct (vec_new _ _) as [out|]; [|reflexivity].
  cbn [mbind option_bind].
  destruct (as_int (srcW - 1)); [|reflexivity]. cbn [mbind option_bind].
  destruct (as_int (srcH - 1)); [|reflexivity]. cbn [mbind option_bind].
  destruct (as_int (dstW - 1)); [|reflexivity]. cbn [mbind option_bind].
  destruct (as_int (dstH - 1)); [|reflexivity]. cbn [mbind option_bind].
  apply for_loop_ext. intros y o _.
  apply for_loop_ext. intros x o' _.
  exact (pixel_store (source_x scale srcW dstW (Z.of_nat x))
           (source_y scale srcH dstH (Z.of_nat y)) (y * Z.to_nat dstW + x) o').
Qed.

(** The parameters are [int]s; the destination sizes are not negative
    and the source sizes are not the least [int] (whose predecessor
    does not exist). *)
Hypothesis HdstW : 0 <= dstW <= 2147483647.
Hypothesis HdstH : 0 <= dstH <= 2147483647.
Hypothesis HsrcW : -2147483648 < srcW <= 2147483647.
Hypothesis HsrcH : -2147483648 < srcH <= 2147483647.

Lemma scaleImage_loops :
  dstW * dstH <= 2147483647 ->
  scaleImage src scale srcW srcH dstW dstH
  = for_loop 0 (Z.to_nat dstH) (λ y out,
      for_loop 0 (Z.to_nat dstW)
        (store (λ x, scalePixel x y) (y * Z.to_nat dstW)) out)
      (replicate (Z.to_nat (dstW * dstH)) F32.zero).
Proof.
  intros Hsize. assert (0 <= dstW * dstH) by (apply Z.mul_nonneg_nonneg; lia).
  rewrite scaleImage_rows. rewrite (as_int_Some (dstW * dstH)) by lia.
  cbn [mbind option_bind]. rewrite vec_new_Some by lia.
  cbn [mbind option_bind].
  rewrite (as_int_Some (srcW - 1)) by lia. cbn [mbind option_bind].
  rewrite (as_int_Some (srcH - 1)) by lia. cbn [mbind option_bind].
  rewrite (as_int_Some (dstW - 1)) by lia. cbn [mbind option_bind].
  rewrite (as_int_Some (dstH - 1)) by lia. reflexivity.
Qed.

Lemma scaleImage_fits (out : list float) :
  scaleImage src scale srcW srcH dstW dstH = Some out ->
  dstW * dstH <= 2147483647.
Proof.
  unfold scaleImage. destruct (as_int (dstW * dstH)) as [size|] eqn:E;
    [|discriminate].
  intros _. apply as_int_inv in E. lia.
Qed.

Lemma scaleImage_total :
  dstW * dstH <= 2147483647 ->
  (forall x y, (x < Z.to_nat dstW)%nat -> (y < Z.to_nat dstH)%nat ->
     is_Some (scalePixel x y)) ->
  exists out,
    scaleImage src scale srcW srcH dstW dstH = Some out
    /\ length out = Z.to_nat (dstW * dstH)
    /\ forall x y, (x < Z.to_nat dstW)%nat -> (y < Z.to_nat dstH)%nat ->
         out !! (y * Z.to_nat dstW + x)%nat = scalePixel x y.
Proof.
  intros Hfits Hdef. rewrite scaleImage_loops by exact Hfits.
  assert (Hsize : Z.to_nat (dstW * dstH) = (Z.to_nat dstH * Z.to_nat dstW)%nat)
    by (rewrite Z2Nat.inj_mul by lia; lia).
  match goal with
  | |- context [for_loop 0 ?n ?body ?s] =>
      destruct (for_loop_invariant
        (λ j o, length o = Z.to_nat (dstW * dstH)
           /\ forall x y, (x < Z.to_nat dstW)%nat -> (y < j)%nat ->
                o !! (y * Z.to_nat dstW + x)%nat = scalePixel x y)
        body n 0%nat s) as (out & Hrun & Hlen & Hval)
  end.
  - split; [apply length_replicate | intros; lia].
  - intros j o Hj [Hlen Hval].
    destruct (write_loop (λ x, scalePixel x j) (j * Z.to_nat dstW)
                (Z.to_nat dstW) o) as (o' & Hrun & Hlen' & Hrow & Hrest).
    { rewrite Hlen, Hsize. nia. }
    { intros x Hx. apply Hdef; lia. }
    exists o'. split; [exact Hrun|]. split; [lia|].
    intros x y Hx Hy. destruct (decide (y = j)) as [->|Hne].
    + apply Hrow. exact Hx.
    + rewrite Hrest by nia. apply Hval; lia.
  - exists out. split; [exact Hrun|]. split; [exact Hlen|].
    intros x y Hx Hy. apply Hval; lia.
Qed.

Lemma scaleImage_defined (out : list float) :
  scaleImage src scale srcW srcH dstW dstH = Some out ->
  forall x y, (x < Z.to_nat dstW)%nat -> (y < Z.to_nat dstH)%nat ->
    is_Some (scalePixel x y).
Proof.
  intros Hrun. pose proof (scaleImage_fits out Hrun) as Hfits.
  rewrite scaleImage_loops in Hrun by exact Hfits.
  intros x y Hx Hy.
  destruct (for_loop_defined _ _ _ _ _ Hrun y ltac:(lia)) as (u & [o Ho]).
  apply (write_loop_defined _ _ _ _ _ _ Ho x). lia.
Qed.

(** C2, as amended.  For [int] parameters, [scaleImage] returns [out]
    exactly when the size [dstW * dstH] is an [int], [out] has that
    many pixels and, for every destination pixel [(x, y)] with source
    coordinate [(sx, sy)]: the pixel is [0.0] when [sx < 0],
    [sx >= srcW - 1], [sy < 0] or [sy >= srcH - 1] (the coordinate is
    outside the half-open region [[0, srcW-1) x [0, srcH-1)]);
    otherwise it is the bilinear interpolation of the four neighbouring
    source pixels with the weights [sx - floor(sx)] and
    [sy - floor(sy)]. *)
Theorem scaleImage_pixels (out : list float) :
  scaleImage src scale srcW srcH dstW dstH = Some out
  <-> dstW * dstH <= 2147483647
      /\ length out = Z.to_nat (dstW * dstH)
      /\ forall x y, (x < Z.to_nat dstW)%nat -> (y < Z.to_nat dstH)%nat ->
            out !! (y * Z.to_nat dstW + x)%nat
            = if outside srcW srcH (source_x scale srcW dstW (Z.of_nat x))
                                   (source_y scale srcH dstH (Z.of_nat y))
              then Some F32.zero
              else bilinear (source_x scale srcW dstW (Z.of_nat x))
                            (source_y scale srcH dstH (Z.of_nat y)).
Proof.
  assert (Hsize : Z.to_nat (dstW * dstH) = (Z.to_nat dstH * Z.to_nat dstW)%nat)
    by (rewrite Z2Nat.inj_mul by lia; lia).
  split.
  - intros Hrun. pose proof (scaleImage_fits out Hrun) as Hfits.
    destruct (scaleImage_total Hfits (scaleImage_defined out Hrun))
      as (out' & Hrun' & Hlen & Hval).
    rewrite Hrun in Hrun'. injection Hrun' as <-.
    split; [exact Hfits|]. split; [exact Hlen | exact Hval].
  - intros (Hfits & Hlen & Hval).
    destruct (scaleImage_total Hfits) as (out' & Hrun & Hlen' & Hval').
    { intros x y Hx Hy. rewrite <- (Hval x y Hx Hy).
      apply lookup_lt_is_Some_2. rewrite Hlen, Hsize. nia. }
    rewrite Hrun. f_equal. apply list_eq. intros k.
    destruct (decide (k < length out)%nat) as [Hk|Hk].
    + assert (HW : (0 < Z.to_nat dstW)%nat) by nia.
      pose proof (Nat.div_mod_eq k (Z.to_nat dstW)) as Hdm.
      pose proof (Nat.mod_upper_bound k (Z.to_nat dstW) ltac:(lia)) as Hmod.
      assert (Hdiv : (k / Z.to_nat dstW < Z.to_nat dstH)%nat)
        by (apply Nat.Div0.div_lt_upper_bound; nia).
      replace k with (k / Z.to_nat dstW * Z.to_nat dstW + k mod Z.to_nat dstW)%nat
        by lia.
      rewrite (Hval _ _ Hmod Hdiv). apply (Hval' _ _ Hmod Hdiv).
    + rewrite !lookup_ge_None_2 by lia. reflexivity.
Qed.

(** Beyond the range of [int] the size has no value and neither has the
    call. *)
Lemma scaleImage_overflow :
  2147483647 < dstW * dstH -> scaleImage src scale srcW srcH dstW dstH = None.
Proof.
  intros Hbig. unfold scaleImage, as_int.
  destruct (Z.leb_spec (dstW * dstH) 2147483647); [lia|].
  rewrite andb_false_r. reflexivity.
Qed.

End Pixel.

Lemma vec_read_Some {A} (v : list A) (i : Z) :
  0 <= i < Z.of_nat (length v) -> is_Some (vec_read v i).
Proof.
  intros Hi. unfold vec_read. destruct (Z.ltb_spec i 0); [lia|].
  apply lookup_lt_is_Some_2. lia.
Qed.

Lemma pixel_at_Some (src : list float) (srcW y x : Z) :
  0 <= y * srcW <= 2147483647 ->
  0 <= y * srcW + x <= 2147483647 ->
  y * srcW + x < Z.of_nat (length src) ->
  is_Some (pixel_at src srcW y x).
Proof.
  intros Hrow Hidx Hlen. unfold pixel_at.
  rewrite (as_int_Some (y * srcW)) by lia. cbn [mbind option_bind].
  rewrite (as_int_Some (y * srcW + x)) by lia. cbn [mbind option_bind].
  apply vec_read_Some. lia.
Qed.

Lemma bilinear_defined (src : list float) (srcW srcH : Z) (sx sy : float) :
  1 <= srcW < 2 ^ 31 -> 1 <= srcH < 2 ^ 31 ->
  srcW * srcH <= 2147483647 ->
  srcW * srcH <= Z.of_nat (length src) ->
  exact_int (srcW - 1) -> exact_int (srcH - 1) ->
  F32.of_bits sx <> S754_nan -> F32.of_bits sy <> S754_nan ->
  outside srcW srcH sx sy = false ->
  is_Some (bilinear src srcW sx sy).
Proof.
  intros HW HH Hint Hsrc HeW HeH Hnx Hny Hout. unfold outside in Hout.
  apply orb_false_elim in Hout as [Hout Hy2].
  apply orb_false_elim in Hout as [Hout Hy1].
  apply orb_false_elim in Hout as [Hx1 Hx2].
  destruct (below_floor sx (srcW - 1) ltac:(lia) HeW Hnx Hx1 Hx2) as (x0 & Hfx & Hx0).
  destruct (below_floor sy (srcH - 1) ltac:(lia) HeH Hny Hy1 Hy2) as (y0 & Hfy & Hy0).
  unfold bilinear. rewrite Hfx, Hfy. cbn [mbind option_bind].
  assert (Hpow : 2 ^ 31 = 2147483648) by reflexivity.
  rewrite (as_int_Some (x0 + 1)) by lia. cbn [mbind option_bind].
  rewrite (as_int_Some (y0 + 1)) by lia. cbn [mbind option_bind].
  assert (Hlast : (y0 + 1) * srcW + (x0 + 1) < srcW * srcH) by nia.
  assert (Hrow : 0 <= y0 * srcW) by nia.
  assert (Hstep : (y0 + 1) * srcW = y0 * srcW + srcW) by lia.
  destruct (pixel_at_Some src srcW y0 x0) as [v00 ->]; [lia | lia | lia |].
  destruct (pixel_at_Some src srcW y0 (x0 + 1)) as [v10 ->]; [lia | lia | lia |].
  destruct (pixel_at_Some src srcW (y0 + 1) x0) as [v01 ->]; [lia | lia | lia |].
  destruct (pixel_at_Some src srcW (y0 + 1) (x0 + 1)) as [v11 ->];
    [lia | lia | lia |].
  cbn [mbind option_bind]. eexists. reflexivity.
Qed.

(** On a source of at least [srcW * srcH] pixels whose sizes convert to
    [float] exactly, with both sizes' products in [int], [scaleImage]
    returns unless a source coordinate is NaN. *)
Lemma scaleImage_returns (src : list float) (scale : float)
    (srcW srcH dstW dstH : Z) :
  0 <= dstW < 2 ^ 31 -> 0 <= dstH < 2 ^ 31 -> dstW * dstH <= 2147483647 ->
  1 <= srcW < 2 ^ 31 -> 1 <= srcH < 2 ^ 31 ->
  srcW * srcH <= 2147483647 ->
  srcW * srcH <= Z.of_nat (length src) ->
  exact_int (srcW - 1) -> exact_int (srcH - 1) ->
  (forall x, (x < Z.to_nat dstW)%nat ->
     F32.of_bits (source_x scale srcW dstW (Z.of_nat x)) <> S754_nan) ->
  (forall y, (y < Z.to_nat dstH)%nat ->
     F32.of_bits (source_y scale srcH dstH (Z.of_nat y)) <> S754_nan) ->
  exists out, scaleImage src scale srcW srcH dstW dstH = Some out.
Proof.
  intros HdW HdH Hdst HW HH Hint Hsrc HeW HeH Hnx Hny.
  assert (Hpow : 2 ^ 31 = 2147483648) by reflexivity.
  destruct (scaleImage_total src scale srcW srcH dstW dstH
              ltac:(lia) ltac:(lia) ltac:(lia) ltac:(lia) Hdst)
    as (out & Hrun & _).
  - intros x y Hx Hy.
    destruct (outside srcW srcH _ _) eqn:Hout; [eexists; reflexivity|].
    apply (bilinear_defined src srcW srcH);
      [exact HW | exact HH | exact Hint | exact Hsrc | exact HeW | exact HeH
      | apply Hnx; exact Hx | apply Hny; exact Hy | exact Hout].
  - exists out. exact Hrun.
Qed.

(** The default size of the program. *)
Lemma default_size_exact : exact_int (28 - 1).
Proof. vm_compute. split; [discriminate | reflexivity]. Qed.

(** 0.5f *)
Definition half : float := 1056964608.

Definition ones_4x4 : list float := replicate 16 F32.one.

Definition halved_4x4 : list float :=
  [F32.zero; F32.zero; F32.zero; F32.zero;
   F32.zero; F32.one; F32.one; F32.zero;
   F32.zero; F32.one; F32.one; F32.zero;
   F32.zero; F32.zero; F32.zero; F32.zero].

Lemma scaleImage_pixels_witness :
  (0 <= 4 <= 2147483647 /\ -2147483648 < 4 <= 2147483647)
  /\ scaleImage ones_4x4 half 4 4 4 4 = Some halved_4x4
  /\ 4 * 4 <= 2147483647
  /\ length halved_4x4 = Z.to_nat (4 * 4)
  /\ forall x y, (x < Z.to_nat 4)%nat -> (y < Z.to_nat 4)%nat ->
       halved_4x4 !! (y * Z.to_nat 4 + x)%nat
       = if outside 4 4 (source_x half 4 4 (Z.of_nat x)) (source_y half 4 4 (Z.of_nat y))
         then Some F32.zero
         else bilinear ones_4x4 4 (source_x half 4 4 (Z.of_nat x))
                       (source_y half 4 4 (Z.of_nat y)).
Proof.
  assert (Hrun : scaleImage ones_4x4 half 4 4 4 4 = Some halved_4x4)
    by (vm_compute; reflexivity).
  split; [lia|]. split; [exact Hrun|].
  apply (proj1 (scaleImage_pixels ones_4x4 half 4 4 4 4 ltac:(lia) ltac:(lia)
                  ltac:(lia) ltac:(lia) halved_4x4) Hrun).
Defined.

(** C2, as stated, fails.  A 4 x 4 image of ones scaled by 0.5 onto
    4 x 4: the destination pixel (2, 1) has [sx = 2.5], outside the
    closed region [[0, W-2]] = [[0, 2]], and is 1.0, not 0.0. *)
Lemma closed_region_counterexample :
  let sx := source_x half 4 4 2 in
  F32.ltb (F32.of_int (4 - 2)) sx = true
  /\ exists out,
       scaleImage ones_4x4 half 4 4 4 4 = Some out
       /\ out !! (1 * 4 + 2)%nat = Some F32.one
       /\ out !! (1 * 4 + 2)%nat <> Some F32.zero.
Proof.
  split; [vm_compute; reflexivity|].
  eexists. split; [vm_compute; reflexivity|].
  split; [reflexivity | discriminate].
Qed.

End ScaleFacts.

(** * Further properties of the code *)

(** ** Networks: construction, forward pass, training step *)

Module NetworkFacts.
Import NN LayerFacts TrainFacts.

(** The layers form a chain from width [n]: every layer keeps the size
    invariant and takes as many inputs as the layer before it gives
    outputs. *)
Fixpoint chained (n : Z) (ls : list Layer) : Prop :=
  match ls with
  | [] => True
  | l :: rest => numNodesIn l = n /\ wf_layer l /\ chained (numNodesOut l) rest
  end.

(** The width of what a chain from [n] returns. *)
Fixpoint out_width (n : Z) (ls : list Layer) : Z :=
  match ls with
  | [] => n
  | l :: rest => out_width (numNodesOut l) rest
  end.

(** [l'] is [l] after a forward call on [inputWidth] inputs: only the
    two transient vectors changed, and they have the layer's widths. *)
Definition forwarded (l l' : Layer) : Prop :=
  exists li lo,
    l' = set_lastOutputs lo (set_lastInputs li l)
    /\ length li = Z.to_nat (numNodesIn l)
    /\ length lo = Z.to_nat (numNodesOut l).

(** The transient vectors have the layer's widths. *)
Definition primed (l : Layer) : Prop :=
  length (lastInputs l) = Z.to_nat (numNodesIn l)
  /\ length (lastOutputs l) = Z.to_nat (numNodesOut l).

Lemma chained_app (n : Z) (ls : list Layer) (l : Layer) :
  chained n (ls ++ [l])
  <-> chained n ls /\ numNodesIn l = out_width n ls /\ wf_layer l.
Proof.
  revert n. induction ls as [|k ls IH]; intros n; cbn [app chained out_width].
  - tauto.
  - rewrite IH. tauto.
Qed.

Lemma out_width_app (n : Z) (ls : list Layer) (l : Layer) :
  out_width n (ls ++ [l]) = numNodesOut l.
Proof.
  revert n. induction ls as [|k ls IH]; intros n; [reflexivity|]. apply IH.
Qed.

Section Engine.
Variables exp tanh : float -> float.

Lemma calculateOutput_run (l : Layer) (inputs : list float) :
  wf_layer l -> length inputs = Z.to_nat (numNodesIn l) ->
  exists outputs,
    calculateOutput exp tanh inputs l
      = Some (outputs, set_lastOutputs outputs (set_lastInputs inputs l))
    /\ length outputs = Z.to_nat (numNodesOut l).
Proof.
  intros Hwf Hlen. pose proof Hwf as [Hi Ho Hw Hb].
  unfold calculateOutput.
  cbn [numNodesOut numNodesIn set_lastInputs biases weights actType].
  rewrite vec_new_Some by exact Ho. cbn [mbind option_bind].
  match goal with
  | |- context [for_loop 0 ?n ?body ?s] =>
      destruct (for_loop_invariant
        (λ (k : nat) (outs : list float), length outs = Z.to_nat (numNodesOut l))
        body n 0%nat s) as (outs & Hrun & Hlen')
  end.
  - apply length_replicate.
  - intros k outs Hk Hl.
    rewrite (lookup_Some_total (biases l) k) by lia. cbn [mbind option_bind].
    change (weightIndex (set_lastInputs inputs l)) with (weightIndex l).
    rewrite calculateOutput_sum by (assumption || lia). cbn [mbind option_bind].
    rewrite vec_write_Some by lia. eexists. split; [reflexivity|].
    rewrite length_insert. exact Hl.
  - rewrite Hrun. cbn [mbind option_bind]. exists outs.
    split; [reflexivity | exact Hlen'].
Qed.

Lemma backPropagate_run (l : Layer) (og : list float) (lr : float) :
  wf_layer l -> primed l -> length og = Z.to_nat (numNodesOut l) ->
  exists ig ws bs,
    backPropagate og lr l = Some (ig, set_params ws bs l)
    /\ length ig = Z.to_nat (numNodesIn l)
    /\ length ws = length (weights l)
    /\ length bs = length (biases l).
Proof.
  intros Hwf [HlastIn HlastOut] Hog. pose proof Hwf as [Hi Ho Hw Hb].
  unfold backPropagate. rewrite vec_new_Some by exact Hi.
  cbn [mbind option_bind].
  match goal with
  | |- context [for_loop 0 ?n ?body ?s] =>
      destruct (for_loop_invariant (outer_inv l og lr) body n 0%nat s)
        as ([[ig ws] bs] & Hrun & Hlbs & _ & Hlig & Hlws & _)
  end.
  - split; [exact Hb|]. split; [|split; [apply length_replicate|split; [reflexivity|split]]].
    + intros o Hlt. rewrite (lookup_Some_total (biases l) o) by lia.
      case_decide; [lia | reflexivity].
    + intros i Hlt. rewrite lookup_replicate_2 by exact Hlt.
      case_decide; [lia | reflexivity].
    + intros i o Hlti Hlto.
      rewrite (lookup_Some_total (weights l))
        by (apply weightIndex_lt; assumption).
      case_decide; [lia | reflexivity].
  - intros k st Hk Hst.
    apply (outer_step l og lr Hwf Hog HlastIn HlastOut k st); [lia | exact Hst].
  - rewrite Hrun. cbn [mbind option_bind]. exists ig, ws, bs.
    split; [reflexivity|]. split; [exact Hlig|]. split; [exact Hlws | lia].
Qed.

Lemma forwarded_chained (n : Z) (ls ls' : list Layer) :
  Forall2 forwarded ls ls' -> chained n ls ->
  chained n ls' /\ out_width n ls' = out_width n ls /\ Forall primed ls'.
Proof.
  intros H. revert n. induction H as [|l l' ls ls' (li & lo & -> & Hli & Hlo) _ IH];
    intros n; cbn [chained out_width].
  - intros _. repeat split. constructor.
  - intros (Hn & [Hi Ho Hw Hb] & Hrest).
    destruct (IH _ Hrest) as (Hc & Hw' & Hp).
    split; [|split].
    + split; [exact Hn|]. split; [split; assumption | exact Hc].
    + exact Hw'.
    + constructor; [split; assumption | exact Hp].
Qed.

Lemma feed_run (n : Z) (ls : list Layer) (inputs : list float) :
  chained n ls -> length inputs = Z.to_nat n ->
  exists result ls',
    feed exp tanh inputs ls = Some (result, ls')
    /\ length result = Z.to_nat (out_width n ls)
    /\ Forall2 forwarded ls ls'.
Proof.
  revert n inputs. induction ls as [|l ls IH]; intros n inputs; cbn [chained out_width feed].
  - intros _ Hlen. exists inputs, []. split; [reflexivity|]. split; [exact Hlen | constructor].
  - intros (Hn & Hwf & Hrest) Hlen. subst n.
    destruct (calculateOutput_run l inputs Hwf Hlen) as (outs & -> & Hlo).
    cbn [mbind option_bind].
    destruct (IH _ outs Hrest Hlo) as (result & ls' & -> & Hres & Hfw).
    cbn [mbind option_bind]. eexists _, _. split; [reflexivity|].
    split; [exact Hres|]. constructor; [|exact Hfw].
    exists inputs, outs. split; [reflexivity|]. split; assumption.
Qed.

Lemma backward_run (lr : float) (ls : list Layer) (n : Z) (g : list float) :
  chained n ls -> Forall primed ls ->
  length g = Z.to_nat (out_width n ls) ->
  exists g' rls,
    backward lr (reverse ls) g = Some (g', rls)
    /\ length g' = Z.to_nat n
    /\ chained n (reverse rls)
    /\ out_width n (reverse rls) = out_width n ls
    /\ Forall2 same_but_params ls (reverse rls).
Proof.
  revert g. induction ls as [|l ls IH] using rev_ind; intros g.
  - intros _ _ Hg. exists g, []. cbn. repeat split; [exact Hg | constructor].
  - rewrite chained_app, out_width_app, Forall_app, reverse_snoc.
    intros (Hc & Hin & Hwf) [Hp Hpl] Hg. rewrite Forall_singleton in Hpl.
    cbn [backward].
    destruct (backPropagate_run l g lr Hwf Hpl Hg)
      as (ig & ws & bs & -> & Hlig & Hlws & Hlbs).
    cbn [mbind option_bind].
    destruct (IH ig Hc Hp ltac:(rewrite Hlig, Hin; reflexivity))
      as (g' & rls & -> & Hg' & Hc' & Hw' & Hsame).
    cbn [mbind option_bind]. eexists _, _. split; [reflexivity|].
    split; [exact Hg'|]. rewrite reverse_cons.
    rewrite chained_app, out_width_app. cbn [numNodesIn numNodesOut set_params].
    split; [|split].
    + split; [exact Hc'|]. split; [rewrite Hw'; exact Hin|].
      destruct Hwf as [Hi Ho Hw Hb]. split; cbn [numNodesIn numNodesOut set_params weights biases]; (assumption || lia).
    + reflexivity.
    + apply Forall2_app; [exact Hsame|]. constructor; [|constructor].
      exists ws, bs. reflexivity.
Qed.

(** X1.  One training step on a chained network, with [inputWidth] inputs
    and at least as many targets as the last layer has outputs, returns;
    the network it leaves is chained from the same width to the same
    width, with as many layers, so the next step is defined too. *)
Theorem train_keeps_chain (n : Z) (inputs targets : list float) (lr : float)
    (net : NeuralNetwork) :
  chained n (layers net) -> length inputs = Z.to_nat n ->
  (Z.to_nat (out_width n (layers net)) <= length targets)%nat ->
  exists net',
    train exp tanh inputs targets lr net = Some net'
    /\ chained n (layers net')
    /\ out_width n (layers net') = out_width n (layers net)
    /\ length (layers net') = length (layers net).
Proof.
  intros Hc Hlen Ht. unfold train, feedForward.
  destruct (feed_run n (layers net) inputs Hc Hlen) as (results & ls' & -> & Hres & Hfw).
  cbn [mbind option_bind layers].
  destruct (forwarded_chained n _ _ Hfw Hc) as (Hc' & Hw' & Hp').
  destruct (backward_run lr ls' n (zip_with F32.sub results targets) Hc' Hp')
    as (g' & rls & Hback & _ & Hc'' & Hw'' & Hsame).
  { rewrite length_zip_with, Hw'. lia. }
  exists (mkNet (reverse rls)). cbn [layers]. split.
  - rewrite gradients_loop by lia. cbn [mbind option_bind].
    rewrite <- (app_nil_r ls') at 2. rewrite backward_loop, Hback.
    cbn [mbind option_bind]. rewrite app_nil_r. reflexivity.
  - split; [exact Hc''|]. split; [congruence|].
    rewrite <- (Forall2_length _ _ _ Hsame). symmetry. exact (Forall2_length _ _ _ Hfw).
Qed.

(** X2.  A forward pass through a chained network returns, the result has
    the width of the last layer, and every layer comes out with its
    parameters untouched and its transient vectors filled at the layer's
    widths. *)
Theorem feedForward_returns (n : Z) (inputs : list float) (net : NeuralNetwork) :
  chained n (layers net) -> length inputs = Z.to_nat n ->
  exists result net',
    feedForward exp tanh inputs net = Some (result, net')
    /\ length result = Z.to_nat (out_width n (layers net))
    /\ Forall2 forwarded (layers net) (layers net').
Proof.
  intros Hc Hlen. unfold feedForward.
  destruct (feed_run n (layers net) inputs Hc Hlen) as (result & ls' & -> & Hres & Hfw).
  cbn [mbind option_bind]. exists result, (mkNet ls').
  split; [reflexivity|]. split; [exact Hres | exact Hfw].
Qed.

(** X3.  [backPropagate] on a layer whose [lastOutputs] is still empty (as
    the constructor and [load] leave it) and that has at least one output
    unit reads [lastOutputs[0]] outside the vector. *)
Theorem backPropagate_before_forward (l : Layer) (og : list float) (lr : float) :
  0 <= numNodesIn l -> 0 < numNodesOut l -> lastOutputs l = [] ->
  backPropagate og lr l = None.
Proof.
  intros Hi Ho Hlast. unfold backPropagate. rewrite vec_new_Some by exact Hi.
  cbn [mbind option_bind].
  rewrite (for_loop_fails _ _ _ 0%nat); [reflexivity | lia |].
  intros [[ig ws] bs]. rewrite Hlast. reflexivity.
Qed.

(** X4.  The ReLU activation never returns a negative number nor a NaN; a
    NaN input gives [0.0]. *)
Theorem relu_not_negative (x : float) :
  F32.ltb (activation exp tanh ReLU x) F32.zero = false
  /\ F32.of_bits (activation exp tanh ReLU x) <> S754_nan
  /\ (F32.of_bits x = S754_nan -> activation exp tanh ReLU x = F32.zero).
Proof.
  unfold activation. change (ReLU =? Tanh) with false.
  change (ReLU =? Sigmoid) with false. change (ReLU =? ReLU) with true.
  cbv iota. unfold F32.max, F32.ltb.
  assert (Hz : F32.of_bits F32.zero = S754_zero false) by (vm_compute; reflexivity).
  rewrite !Hz.
  destruct (F32.of_bits x) as [s|s| |s m e] eqn:E; cbn [SFltb SFcompare];
    try destruct s; rewrite ?Hz, ?E; cbn [SFltb SFcompare];
    (split; [reflexivity | split; [discriminate | intros; (reflexivity || discriminate)]]).
Qed.

End Engine.



(** A two-input ReLU layer as the constructor leaves it, a chain of one
    layer, and a three-level topology. *)
Definition untrained_layer : Layer :=
  mkLayer 2 1 ReLU [F32.one; F32.two] [F32.zero] [] [].

Lemma sample_chained : chained 2 (layers (mkNet [sample_layer])).
Proof. split; [reflexivity|]. split; [exact sample_layer_wf | exact I]. Defined.


Lemma train_keeps_chain_witness :
  chained 2 (layers (mkNet [sample_layer]))
  /\ length [F32.one; F32.one] = Z.to_nat 2
  /\ (Z.to_nat (out_width 2 (layers (mkNet [sample_layer])))
      <= length [F32.zero])%nat
  /\ exists net',
       train (λ x, x) (λ x, x) [F32.one; F32.one] [F32.zero] F32.c0_01
         (mkNet [sample_layer]) = Some net'
       /\ chained 2 (layers net')
       /\ out_width 2 (layers net') = out_width 2 (layers (mkNet [sample_layer]))
       /\ length (layers net') = length (layers (mkNet [sample_layer])).
Proof.
  split; [exact sample_chained|]. split; [reflexivity|].
  split; [simpl; lia|].
  apply (train_keeps_chain (λ x, x) (λ x, x) 2 [F32.one; F32.one] [F32.zero]
           F32.c0_01 (mkNet [sample_layer]) sample_chained eq_refl).
  simpl. lia.
Defined.

Lemma feedForward_returns_witness :
  chained 2 (layers (mkNet [sample_layer]))
  /\ length [F32.one; F32.one] = Z.to_nat 2
  /\ exists result net',
       feedForward (λ x, x) (λ x, x) [F32.one; F32.one] (mkNet [sample_layer])
         = Some (result, net')
       /\ length result = Z.to_nat (out_width 2 (layers (mkNet [sample_layer])))
       /\ Forall2 forwarded (layers (mkNet [sample_layer])) (layers net').
Proof.
  split; [exact sample_chained|]. split; [reflexivity|].
  apply (feedForward_returns (λ x, x) (λ x, x) 2 [F32.one; F32.one]
           (mkNet [sample_layer]) sample_chained eq_refl).
Defined.

Lemma backPropagate_before_forward_witness :
  0 <= numNodesIn untrained_layer
  /\ 0 < numNodesOut untrained_layer
  /\ lastOutputs untrained_layer = []
  /\ backPropagate [F32.one] F32.c0_01 untrained_layer = None.
Proof.
  split; [simpl; lia|]. split; [simpl; lia|]. split; [reflexivity|].
  apply backPropagate_before_forward; [simpl; lia | simpl; lia | reflexivity].
Defined.


End NetworkFacts.

(** ** The model file: size, damaged files *)

Module ModelFileEdges.
Import NN Bytes BytesFacts LayerFacts ModelFileFacts.

Lemma length_layer_record (l : Layer) :
  length (layer_record l)
  = (12 + 4 * length (weights l) + 4 * length (biases l))%nat.
Proof.
  unfold layer_record. rewrite !length_app, !length_encode_int,
    !length_encode_words. unfold F32.float. lia.
Qed.

(** X6.  The file [save] writes holds 4 bytes for the count and, for each
    layer, 12 bytes of header and 4 bytes per weight and per bias. *)
Theorem save_file_size (filename : string) (net : NeuralNetwork)
    (fs : IO.FileSystem) :
  IO.open_out fs filename = true ->
  exists content,
    IO.open_in (save filename net fs).2 filename = Some content
    /\ length content
       = (4 + sum_list_with
                (λ l, 12 + 4 * length (weights l) + 4 * length (biases l))%nat
                (layers net))%nat.
Proof.
  intros Hopen. exists (model_file net).
  split; [rewrite save_writes by exact Hopen; apply open_in_close_out; exact Hopen|].
  unfold model_file. rewrite length_app, length_encode_int. f_equal.
  induction (layers net) as [|l ls IH]; [reflexivity|].
  change (mjoin (layer_record <$> l :: ls))
    with (layer_record l ++ mjoin (layer_record <$> ls)).
  rewrite length_app, length_layer_record, IH. reflexivity.
Qed.

(** X7.  A file that opens and whose layer count is zero or negative
    empties the network, whatever follows the count. *)
Theorem load_no_layers (rnd : nat -> nat -> float) (filename : string)
    (net : NeuralNetwork) (fs : IO.FileSystem) (count : Z) (rest : list byte) :
  - 2 ^ 31 <= count <= 0 ->
  IO.open_in fs filename = Some (encode_int count ++ rest) ->
  load rnd filename net fs = Some (mkNet []).
Proof.
  intros Hc Hopen. unfold load. rewrite Hopen.
  rewrite read_int_encode by lia. cbn [mbind option_bind].
  replace (Z.to_nat count) with 0%nat by lia. reflexivity.
Qed.

(** X8.  A file shorter than the four bytes of the count leaves the count
    indeterminate: [load] has no defined result. *)
Theorem load_short_count (rnd : nat -> nat -> float) (filename : string)
    (net : NeuralNetwork) (fs : IO.FileSystem) (content : list byte) :
  (length content < 4)%nat ->
  IO.open_in fs filename = Some content ->
  load rnd filename net fs = None.
Proof.
  intros Hlen Hopen. unfold load. rewrite Hopen.
  unfold IO.read_int, IO.read_scalar, IO.read. cbn [IO.in_fail IO.in_rest].
  case_decide; [lia|]. case_decide; [lia|]. reflexivity.
Qed.

Lemma read_floats_end (v : list float) :
  Forall F32.is_f32 v ->
  (read_floats v (IO.mkIn [] false)).1 = v
  /\ (read_floats v (IO.mkIn [] true)).1 = v.
Proof.
  intros Hv. unfold read_floats, IO.read. cbn [IO.in_fail IO.in_rest length].
  split.
  - case_decide; cbn [fst]; rewrite ?take_nil, overlay_nil;
      apply decode_words_encode_words; exact Hv.
  - cbn [fst]. rewrite overlay_nil. apply decode_words_encode_words; exact Hv.
Qed.

(** The layer the constructor builds from the draws [rnd]. *)
Definition drawn (rnd : nat -> float) (l : Layer) : Layer :=
  mkLayer (numNodesIn l) (numNodesOut l) (actType l)
    (rnd <$> seq 0 (Z.to_nat (numNodesIn l * numNodesOut l)))
    (rnd <$> seq (Z.to_nat (numNodesIn l * numNodesOut l))
                 (Z.to_nat (numNodesOut l)))
    [] [].

(** X9.  A file cut right after the header of its last layer is not
    detected: [load] returns normally, the layers before are restored
    and the last one keeps the random parameters of its constructor. *)
Theorem load_truncated_last_layer (rnd : nat -> nat -> float) (filename : string)
    (net0 : NeuralNetwork) (fs : IO.FileSystem) (ls : list Layer) (l : Layer) :
  valid_network (mkNet (ls ++ [l])) ->
  (forall i j, F32.is_f32 (rnd i j)) ->
  IO.open_in fs filename
    = Some (encode_int (Z.of_nat (length (ls ++ [l])))
            ++ mjoin (layer_record <$> ls)
            ++ encode_int (numNodesIn l) ++ encode_int (numNodesOut l)
            ++ encode_int (actType l)) ->
  load rnd filename net0 fs
  = Some (mkNet ((fresh <$> ls) ++ [drawn (rnd (length ls)) l])).
Proof.
  intros [Hls Hcount] Hrnd Hopen. cbn [layers] in Hls, Hcount.
  apply Forall_app in Hls as [Hls Hl]. rewrite Forall_singleton in Hl.
  unfold load. rewrite Hopen.
  rewrite read_int_encode by lia. cbn [mbind option_bind].
  rewrite Nat2Z.id, length_app. cbn [length]. rewrite Nat.add_1_r.
  rewrite for_loop_snoc, load_layers by exact Hls.
  cbn [mbind option_bind Nat.add app].
  destruct Hl as [[Hi Ho Hw Hb] Hin Hout Hsize Hact Hws Hbs].
  unfold load_layer.
  rewrite read_int_encode by lia. cbn [mbind option_bind].
  rewrite read_int_encode by lia. cbn [mbind option_bind].
  rewrite <- (app_nil_r (encode_int (actType l))).
  rewrite read_int_encode by lia. cbn [mbind option_bind].
  unfold Layer_new.
  assert (Hn : 0 <= numNodesIn l * numNodesOut l) by nia.
  destruct (Z.leb_spec (-2147483648) (numNodesIn l * numNodesOut l)); [|lia].
  destruct (Z.leb_spec (numNodesIn l * numNodesOut l) 2147483647); [|lia].
  destruct (Z.ltb_spec (numNodesIn l * numNodesOut l) 0); [lia|].
  destruct (Z.ltb_spec (numNodesOut l) 0); [lia|].
  cbn [negb andb orb mbind option_bind weights biases].
  assert (Hdraws : forall a b, Forall F32.is_f32 (rnd (length ls) <$> seq a b)).
  { intros a b. apply Forall_fmap, Forall_forall. intros j _. apply Hrnd. }
  match goal with
  | |- context [read_floats ?ws (IO.mkIn [] false)] =>
      pose proof (read_floats_end ws (Hdraws _ _)) as [Hw1 _];
      destruct (read_floats ws (IO.mkIn [] false)) as [ws' file1] eqn:E1;
      cbn [fst] in Hw1; subst ws'
  end.
  assert (Hfile : file1 = IO.mkIn [] false \/ file1 = IO.mkIn [] true).
  { unfold read_floats, IO.read in E1. cbn [IO.in_fail IO.in_rest length] in E1.
    rewrite drop_nil in E1.
    case_decide; injection E1 as _ <-; [left | right]; reflexivity. }
  match goal with
  | |- context [read_floats ?bs file1] =>
      pose proof (read_floats_end bs (Hdraws _ _)) as [Hb1 Hb2];
      destruct Hfile as [-> | ->];
      [destruct (read_floats bs (IO.mkIn [] false)) as [bs' file2];
       cbn [fst] in Hb1
      |destruct (read_floats bs (IO.mkIn [] true)) as [bs' file2];
       cbn [fst] in Hb2]; subst bs'; reflexivity
  end.
Qed.

(** Files that hold only a count, half a count, and a count with the
    header of one layer. *)
Definition one_layer : Layer := mkLayer 1 1 Sigmoid [F32.one] [F32.zero] [] [].

Definition file_m (content : list byte) : IO.FileSystem :=
  IO.mkFS (<["m" := content]> ∅) ∅.

Lemma save_file_size_witness :
  IO.open_out no_files "m" = true
  /\ exists content,
       IO.open_in (save "m" one_by_one no_files).2 "m" = Some content
       /\ length content
          = (4 + sum_list_with
                   (λ l, 12 + 4 * length (weights l) + 4 * length (biases l))%nat
                   (layers one_by_one))%nat.
Proof.
  split; [reflexivity|].
  apply (save_file_size "m" one_by_one no_files). reflexivity.
Defined.

Lemma load_no_layers_witness :
  - 2 ^ 31 <= 0 <= 0
  /\ IO.open_in (file_m (encode_int 0)) "m" = Some (encode_int 0 ++ [])
  /\ load (λ _ _, F32.zero) "m" one_by_one (file_m (encode_int 0))
     = Some (mkNet []).
Proof.
  split; [lia|]. split; [reflexivity|].
  apply (load_no_layers (λ _ _, F32.zero) "m" one_by_one
           (file_m (encode_int 0)) 0 []); [lia | reflexivity].
Defined.

Lemma load_short_count_witness :
  (length [x01; x00] < 4)%nat
  /\ IO.open_in (file_m [x01; x00]) "m" = Some [x01; x00]
  /\ load (λ _ _, F32.zero) "m" one_by_one (file_m [x01; x00]) = None.
Proof.
  split; [simpl; lia|]. split; [reflexivity|].
  apply (load_short_count (λ _ _, F32.zero) "m" one_by_one
           (file_m [x01; x00]) [x01; x00]); [simpl; lia | reflexivity].
Defined.

Lemma load_truncated_last_layer_witness :
  valid_network (mkNet ([] ++ [one_layer]))
  /\ (forall i j : nat, F32.is_f32 ((λ _ _, F32.zero) i j))
  /\ load (λ _ _, F32.zero) "m" (mkNet [])
       (file_m (encode_int 1 ++ encode_int 1 ++ encode_int 1
                ++ encode_int Sigmoid))
     = Some (mkNet ((fresh <$> [])
                    ++ [drawn ((λ _ _, F32.zero) (length (@nil Layer)))
                          one_layer])).
Proof.
  split; [exact one_by_one_valid|].
  split; [intros i j; unfold F32.is_f32, F32.zero; lia|].
  apply (load_truncated_last_layer (λ _ _, F32.zero) "m" (mkNet []) _ []
           one_layer one_by_one_valid).
  - intros i j. unfold F32.is_f32, F32.zero. lia.
  - reflexivity.
Defined.

End ModelFileEdges.

(** ** The translation transform *)

Module TranslateFacts.
Import ImgProc ScaleFacts Translate.

Lemma cell_bounds (W H x y : Z) :
  0 <= x < W -> 0 <= y < H -> 0 <= y * W + x < W * H.
Proof. intros Hx Hy. nia. Qed.

Lemma cell_bounds_nat (W H x y : nat) :
  (x < W)%nat -> (y < H)%nat -> (y * W + x < H * W)%nat.
Proof. intros Hx Hy. nia. Qed.

Lemma cell_to_nat (W x y : Z) :
  0 <= W -> 0 <= x -> 0 <= y ->
  Z.to_nat (y * W + x) = (Z.to_nat y * Z.to_nat W + Z.to_nat x)%nat.
Proof.
  intros HW Hx Hy. rewrite Z2Nat.inj_add, Z2Nat.inj_mul by nia. reflexivity.
Qed.

(** A row-major loop nest that stores [f x y] at [y * W + x]. *)
Lemma grid_loop {A} (f : nat -> nat -> option A) (W H : nat) (out0 : list A) :
  length out0 = (H * W)%nat ->
  (forall x y, (x < W)%nat -> (y < H)%nat -> is_Some (f x y)) ->
  exists out,
    for_loop 0 H (λ y out, for_loop 0 W (store (λ x, f x y) (y * W)) out) out0
      = Some out
    /\ length out = (H * W)%nat
    /\ forall x y, (x < W)%nat -> (y < H)%nat -> out !! (y * W + x)%nat = f x y.
Proof.
  intros Hlen0 Hdef.
  match goal with
  | |- context [for_loop 0 ?n ?body ?s] =>
      destruct (for_loop_invariant
        (λ j o, length o = (H * W)%nat
           /\ forall x y, (x < W)%nat -> (y < j)%nat ->
                o !! (y * W + x)%nat = f x y)
        body n 0%nat s) as (out & Hrun & Hlen & Hval)
  end.
  - split; [exact Hlen0 | intros; lia].
  - intros j o Hj [Hlen Hval].
    destruct (write_loop (λ x, f x j) (j * W) W o) as (o' & Hrun & Hlen' & Hrow & Hrest).
    { rewrite Hlen. nia. }
    { intros x Hx. apply Hdef; lia. }
    exists o'. split; [exact Hrun|]. split; [lia|].
    intros x y Hx Hy. destruct (decide (y = j)) as [->|Hne].
    + apply Hrow. exact Hx.
    + rewrite Hrest by nia. apply Hval; lia.
  - exists out. split; [exact Hrun|]. split; [exact Hlen|].
    intros x y Hx Hy. apply Hval; lia.
Qed.

(** Two images of [H * W] pixels that agree at every [(x, y)] are equal. *)
Lemma grid_ext {A} (W H : nat) (a b : list A) :
  length a = (H * W)%nat -> length b = (H * W)%nat ->
  (forall x y, (x < W)%nat -> (y < H)%nat ->
     a !! (y * W + x)%nat = b !! (y * W + x)%nat) ->
  a = b.
Proof.
  intros Ha Hb Heq. apply list_eq. intros k.
  destruct (decide (k < H * W)%nat) as [Hk|Hk].
  - assert (HW : (0 < W)%nat) by nia.
    pose proof (Nat.div_mod_eq k W) as Hdm.
    pose proof (Nat.mod_upper_bound k W ltac:(lia)) as Hmod.
    assert (Hdiv : (k / W < H)%nat) by (apply Nat.Div0.div_lt_upper_bound; nia).
    replace k with (k / W * W + k mod W)%nat by lia.
    apply Heq; assumption.
  - rewrite !lookup_ge_None_2 by lia. reflexivity.
Qed.

(** The conditions under which [translateImage] stays inside [int] and
    inside its source. *)
Record in_bounds (pixels : list float) (dx dy width height : Z) : Prop := {
  bounds_width : 0 <= width;
  bounds_height : 0 <= height;
  bounds_size : width * height <= 2147483647;
  bounds_pixels : width * height <= Z.of_nat (length pixels);
  bounds_dx : width - 2 ^ 31 <= dx < 2 ^ 31;
  bounds_dy : height - 2 ^ 31 <= dy < 2 ^ 31
}.

(** The source pixel of [(x, y)], or zero when it lies outside. *)
Definition shifted (pixels : list float) (dx dy width height : Z) (x y : nat)
    : float :=
  if decide (0 <= Z.of_nat x - dx < width /\ 0 <= Z.of_nat y - dy < height)
  then pixels !!! Z.to_nat ((Z.of_nat y - dy) * width + (Z.of_nat x - dx))
  else F32.zero.

Lemma translateImage_value (pixels : list float) (dx dy width height : Z) :
  in_bounds pixels dx dy width height ->
  exists out,
    translateImage pixels dx dy width height = Some out
    /\ length out = (Z.to_nat height * Z.to_nat width)%nat
    /\ forall x y, (x < Z.to_nat width)%nat -> (y < Z.to_nat height)%nat ->
         out !! (y * Z.to_nat width + x)%nat
         = Some (shifted pixels dx dy width height x y).
Proof.
  intros [HW HH Hsize Hpix Hdx Hdy].
  assert (Hn : 0 <= width * height) by nia.
  unfold translateImage, as_int.
  destruct (Z.leb_spec (-2147483648) (width * height)); [|lia].
  destruct (Z.leb_spec (width * height) 2147483647); [|lia].
  cbn [andb mbind option_bind]. rewrite vec_new_Some by lia.
  cbn [mbind option_bind].
  destruct (grid_loop (λ x y, Some (shifted pixels dx dy width height x y))
              (Z.to_nat width) (Z.to_nat height)
              (replicate (Z.to_nat (width * height)) F32.zero))
    as (out & Hrun & Hlen & Hval).
  { rewrite length_replicate, Z2Nat.inj_mul by lia. lia. }
  { intros; eauto. }
  exists out. split; [|split; [exact Hlen | exact Hval]].
  rewrite <- Hrun. apply for_loop_ext. intros y o Hy.
  apply for_loop_ext. intros x o' Hx. unfold store, shifted.
  destruct (Z.leb_spec (-2147483648) (Z.of_nat x - dx)); [|lia].
  destruct (Z.leb_spec (Z.of_nat x - dx) 2147483647); [|lia].
  destruct (Z.leb_spec (-2147483648) (Z.of_nat y - dy)); [|lia].
  destruct (Z.leb_spec (Z.of_nat y - dy) 2147483647); [|lia].
  cbn [andb mbind option_bind].
  destruct (Z.leb_spec 0 (Z.of_nat x - dx)), (Z.ltb_spec (Z.of_nat x - dx) width),
           (Z.leb_spec 0 (Z.of_nat y - dy)), (Z.ltb_spec (Z.of_nat y - dy) height);
    cbn [andb]; case_decide; try lia; try reflexivity.
  unfold vec_read.
  pose proof (cell_bounds width height (Z.of_nat x - dx) (Z.of_nat y - dy)
                ltac:(lia) ltac:(lia)) as Hcell.
  destruct (Z.ltb_spec ((Z.of_nat y - dy) * width + (Z.of_nat x - dx)) 0); [lia|].
  rewrite (lookup_Some_total pixels) by lia. reflexivity.
Qed.

(** X10.  [translateImage] returns [width * height] pixels; pixel [(x, y)]
    is the source pixel [(x - dx, y - dy)] when that lies inside the
    image and [0.0] otherwise. *)
Theorem translateImage_pixels (pixels : list float) (dx dy width height : Z) :
  in_bounds pixels dx dy width height ->
  exists out,
    translateImage pixels dx dy width height = Some out
    /\ length out = Z.to_nat (width * height)
    /\ forall x y, (x < Z.to_nat width)%nat -> (y < Z.to_nat height)%nat ->
         out !! (y * Z.to_nat width + x)%nat
         = Some (if decide (0 <= Z.of_nat x - dx < width
                            /\ 0 <= Z.of_nat y - dy < height)
                 then pixels !!! Z.to_nat ((Z.of_nat y - dy) * width
                                           + (Z.of_nat x - dx))
                 else F32.zero).
Proof.
  intros Hb. destruct (translateImage_value _ _ _ _ _ Hb) as (out & Hrun & Hlen & Hval).
  exists out. split; [exact Hrun|].
  split; [rewrite Hlen, Z2Nat.inj_mul by apply Hb; lia | exact Hval].
Qed.

(** X11.  A translation by [(0, 0)] of an image of exactly [width * height]
    pixels returns the image. *)
Theorem translateImage_identity (pixels : list float) (width height : Z) :
  0 <= width < 2 ^ 31 -> 0 <= height < 2 ^ 31 ->
  width * height <= 2147483647 ->
  Z.of_nat (length pixels) = width * height ->
  translateImage pixels 0 0 width height = Some pixels.
Proof.
  intros HW HH Hsize Hlen.
  destruct (translateImage_value pixels 0 0 width height) as (out & -> & Hlo & Hval).
  { split; lia. }
  assert (Hlp : length pixels = (Z.to_nat height * Z.to_nat width)%nat)
    by (rewrite <- Z2Nat.inj_mul by lia; lia).
  f_equal. apply (grid_ext (Z.to_nat width) (Z.to_nat height)); [exact Hlo | exact Hlp |].
  intros x y Hx Hy. rewrite (Hval x y Hx Hy). unfold shifted.
  case_decide; [|lia].
  rewrite !Z.sub_0_r, cell_to_nat, !Nat2Z.id by lia.
  symmetry. apply lookup_Some_total. rewrite Hlp. apply cell_bounds_nat; assumption.
Qed.

(** X12.  A shift by a whole width or height, in either direction, leaves
    no source pixel inside: the result is all zeros. *)
Theorem translateImage_far (pixels : list float) (dx dy width height : Z) :
  in_bounds pixels dx dy width height ->
  (width <= dx \/ dx <= - width \/ height <= dy \/ dy <= - height) ->
  translateImage pixels dx dy width height
  = Some (replicate (Z.to_nat (width * height)) F32.zero).
Proof.
  intros Hb Hfar.
  destruct (translateImage_value _ _ _ _ _ Hb) as (out & -> & Hlo & Hval).
  destruct Hb as [HW HH Hsize Hpix Hdx Hdy].
  f_equal. apply (grid_ext (Z.to_nat width) (Z.to_nat height)); [exact Hlo | |].
  { rewrite length_replicate, Z2Nat.inj_mul by lia. lia. }
  intros x y Hx Hy. rewrite (Hval x y Hx Hy). unfold shifted.
  replace (Z.to_nat (width * height)) with (Z.to_nat height * Z.to_nat width)%nat
    by (rewrite Z2Nat.inj_mul by lia; lia).
  rewrite lookup_replicate_2 by (apply cell_bounds_nat; assumption).
  case_decide; [lia | reflexivity].
Qed.

(** X13.  Translating by [(dx, dy)] and then by [(-dx, -dy)] gives back the
    pixels whose shifted position stayed inside the image and [0.0] at
    the others: nothing wraps around. *)
Theorem translateImage_back (pixels : list float) (dx dy width height : Z) :
  in_bounds pixels dx dy width height ->
  in_bounds pixels (- dx) (- dy) width height ->
  exists moved back,
    translateImage pixels dx dy width height = Some moved
    /\ translateImage moved (- dx) (- dy) width height = Some back
    /\ length back = Z.to_nat (width * height)
    /\ forall x y, (x < Z.to_nat width)%nat -> (y < Z.to_nat height)%nat ->
         back !! (y * Z.to_nat width + x)%nat
         = Some (if decide (0 <= Z.of_nat x + dx < width
                            /\ 0 <= Z.of_nat y + dy < height)
                 then pixels !!! (y * Z.to_nat width + x)%nat
                 else F32.zero).
Proof.
  intros Hb Hb'.
  destruct (translateImage_value _ _ _ _ _ Hb) as (moved & Hrun & Hlm & Hvm).
  destruct Hb as [HW HH Hsize Hpix Hdx Hdy]. destruct Hb' as [_ _ _ _ Hdx' Hdy'].
  destruct (translateImage_value moved (- dx) (- dy) width height)
    as (back & Hrun' & Hlb & Hvb).
  { split; try assumption. rewrite Hlm, <- Z2Nat.inj_mul, Z2Nat.id by nia. lia. }
  exists moved, back. split; [exact Hrun|]. split; [exact Hrun'|].
  split; [rewrite Hlb, Z2Nat.inj_mul by lia; lia|].
  intros x y Hx Hy. rewrite (Hvb x y Hx Hy). unfold shifted at 1.
  replace (Z.of_nat x - - dx) with (Z.of_nat x + dx) by lia.
  replace (Z.of_nat y - - dy) with (Z.of_nat y + dy) by lia.
  case_decide as Hin; [|reflexivity]. f_equal.
  rewrite cell_to_nat by lia.
  pose proof (Hvm (Z.to_nat (Z.of_nat x + dx)) (Z.to_nat (Z.of_nat y + dy))
                ltac:(lia) ltac:(lia)) as Hm.
  apply list_lookup_total_correct in Hm. rewrite Hm.
  unfold shifted. rewrite !Z2Nat.id by lia.
  case_decide; [|lia].
  replace (Z.of_nat y + dy - dy) with (Z.of_nat y) by lia.
  replace (Z.of_nat x + dx - dx) with (Z.of_nat x) by lia.
  rewrite cell_to_nat, !Nat2Z.id by lia. reflexivity.
Qed.

(** A 2 x 2 image and its bounds for small shifts. *)
Definition two_by_two : list float := [F32.one; F32.two; F32.zero; F32.one].

Lemma two_by_two_bounds (dx dy : Z) :
  - 2 <= dx <= 2 -> - 2 <= dy <= 2 -> in_bounds two_by_two dx dy 2 2.
Proof. intros Hx Hy. split; simpl; lia. Defined.

Lemma translateImage_pixels_witness :
  in_bounds two_by_two 1 0 2 2
  /\ exists out,
       translateImage two_by_two 1 0 2 2 = Some out
       /\ length out = Z.to_nat (2 * 2).
Proof.
  assert (Hb : in_bounds two_by_two 1 0 2 2) by (apply two_by_two_bounds; lia).
  split; [exact Hb|].
  destruct (translateImage_pixels two_by_two 1 0 2 2 Hb) as (out & Hrun & Hlen & _).
  exists out. split; [exact Hrun | exact Hlen].
Defined.

Lemma translateImage_identity_witness :
  0 <= 2 < 2 ^ 31
  /\ 2 * 2 <= 2147483647
  /\ Z.of_nat (length two_by_two) = 2 * 2
  /\ translateImage two_by_two 0 0 2 2 = Some two_by_two.
Proof.
  split; [lia|]. split; [lia|]. split; [reflexivity|].
  apply translateImage_identity; [lia | lia | lia | reflexivity].
Defined.

Lemma translateImage_far_witness :
  in_bounds two_by_two 2 0 2 2
  /\ (2 <= 2 \/ 2 <= - 2 \/ 2 <= 0 \/ 0 <= - 2)
  /\ translateImage two_by_two 2 0 2 2
     = Some (replicate (Z.to_nat (2 * 2)) F32.zero).
Proof.
  assert (Hb : in_bounds two_by_two 2 0 2 2) by (apply two_by_two_bounds; lia).
  split; [exact Hb|]. split; [left; lia|].
  apply (translateImage_far two_by_two 2 0 2 2 Hb). left. lia.
Defined.

Lemma translateImage_back_witness :
  in_bounds two_by_two 1 0 2 2
  /\ in_bounds two_by_two (- 1) (- 0) 2 2
  /\ exists moved back,
       translateImage two_by_two 1 0 2 2 = Some moved
       /\ translateImage moved (- 1) (- 0) 2 2 = Some back
       /\ length back = Z.to_nat (2 * 2).
Proof.
  assert (Hb : in_bounds two_by_two 1 0 2 2) by (apply two_by_two_bounds; lia).
  assert (Hb' : in_bounds two_by_two (- 1) (- 0) 2 2)
    by (apply two_by_two_bounds; lia).
  split; [exact Hb|]. split; [exact Hb'|].
  destruct (translateImage_back two_by_two 1 0 2 2 Hb Hb')
    as (moved & back & Hm & Hback & Hlen & _).
  exists moved, back. split; [exact Hm|]. split; [exact Hback | exact Hlen].
Defined.

End TranslateFacts.

(** ** The dataset decoder: byte order, unreadable and damaged files *)

Module DecoderEdges.
Import Bytes BytesFacts ImgProc DecoderFacts.

(** X14.  On 32-bit values [swapEndian] stays inside 32 bits and undoes
    itself. *)
Theorem swapEndian_involutive (v : Z) :
  0 <= v < 2 ^ 32 ->
  0 <= swapEndian v < 2 ^ 32 /\ swapEndian (swapEndian v) = v.
Proof.
  intros Hv. rewrite <- (decode32_encode32 v Hv).
  unfold encode32, decode32.
  set (b0 := byte_of_Z v). set (b1 := byte_of_Z (Z.shiftr v 8)).
  set (b2 := byte_of_Z (Z.shiftr v 16)). set (b3 := byte_of_Z (Z.shiftr v 24)).
  pose proof (Z_of_byte_range b0). pose proof (Z_of_byte_range b1).
  pose proof (Z_of_byte_range b2). pose proof (Z_of_byte_range b3).
  rewrite swapEndian_bytes by assumption.
  split; [lia|]. rewrite swapEndian_bytes by assumption. reflexivity.
Qed.

(** X15.  When either file cannot be opened the decoder returns an empty
    dataset. *)
Theorem load_unopened (imagePath labelPath : string) (fs : IO.FileSystem) :
  IO.open_in fs imagePath = None \/ IO.open_in fs labelPath = None ->
  load imagePath labelPath fs = Some [].
Proof.
  intros [H|H]; unfold load; rewrite H; [reflexivity|].
  destruct (IO.open_in fs imagePath); reflexivity.
Qed.

(** The image stream before record [i] when the pixel data of the file
    is [data]: what is left of it, or the failed stream once a read came
    up short. *)
Definition image_stream (size : nat) (data : list byte) (i : nat) : IO.ifstream :=
  if decide (i * size <= length data)%nat
  then IO.mkIn (drop (i * size) data) false
  else IO.mkIn [] true.

(** The pixel bytes of record [i]: what the file holds of them, the
    missing ones zero. *)
Definition chunk (size : nat) (data : list byte) (i : nat) : list byte :=
  take size (drop (i * size) data ++ replicate size "000"%byte).

Definition sample_at (size : nat) (data : list byte) (i : nat) (lb : byte)
    : Image :=
  mkImage (normalize <$> chunk size data i)
          (target_of (Z_of_byte lb)) (Z_of_byte lb).

Lemma read_image_stream (size : nat) (data : list byte) (i : nat) :
  IO.read size (image_stream size data i)
  = (take size (drop (i * size) data), image_stream size data (Datatypes.S i)).
Proof.
  unfold image_stream, IO.read.
  destruct (decide (i * size <= length data)%nat) as [Hi|Hi];
    cbn [IO.in_fail IO.in_rest].
  - rewrite length_drop.
    destruct (decide (size <= length data - i * size)%nat) as [Hs|Hs].
    + rewrite decide_True by (cbn [Nat.mul]; lia).
      rewrite drop_drop. do 3 f_equal. cbn [Nat.mul]. lia.
    + rewrite decide_False by (cbn [Nat.mul]; lia).
      rewrite take_ge by (rewrite length_drop; lia). reflexivity.
  - rewrite decide_False by (cbn [Nat.mul]; lia).
    rewrite drop_ge by lia. rewrite take_nil. reflexivity.
Qed.

Lemma overlay_chunk (size : nat) (data : list byte) (i : nat) :
  overlay (take size (drop (i * size) data)) (replicate size "000"%byte)
  = chunk size data i.
Proof.
  unfold overlay, chunk. rewrite take_app, drop_replicate, take_replicate.
  f_equal. f_equal. rewrite length_take. lia.
Qed.

Lemma load_record_at (size : Z) (data : list byte) (i : nat) (lb : byte)
    (restL : list byte) :
  0 <= size ->
  load_record size (mkImage [] [] 0)
    (image_stream (Z.to_nat size) data i) (IO.mkIn (lb :: restL) false)
  = Some (sample_at (Z.to_nat size) data i lb,
          image_stream (Z.to_nat size) data (Datatypes.S i),
          IO.mkIn restL false).
Proof.
  intros Hsize. unfold load_record.
  destruct (Z.ltb_spec size 0); [lia|].
  rewrite read_uchar_cons. cbn [mbind option_bind].
  assert (Ht : (if (0 <=? Z_of_byte lb) && (Z_of_byte lb <? 10)
                then vec_write (Z.to_nat (Z_of_byte lb)) F32.one
                       (replicate 10 F32.zero)
                else Some (replicate 10 F32.zero))
               = Some (target_of (Z_of_byte lb))).
  { unfold target_of. destruct (Z.leb_spec 0 (Z_of_byte lb)); [|reflexivity].
    destruct (Z.ltb_spec (Z_of_byte lb) 10); [|reflexivity].
    cbn [andb]. apply vec_write_Some. rewrite length_replicate. lia. }
  rewrite Ht. cbn [mbind option_bind].
  rewrite vec_new_Some by lia. cbn [mbind option_bind].
  rewrite read_image_stream, overlay_chunk.
  assert (Hlen : length (chunk (Z.to_nat size) data i) = Z.to_nat size).
  { unfold chunk. rewrite length_take, length_app, length_replicate. lia. }
  rewrite <- Hlen at 1. rewrite pixels_loop. reflexivity.
Qed.

Lemma load_records_at (size : Z) (data : list byte) (todo : list byte)
    (done : list Image) (restL : list byte) :
  0 <= size ->
  for_loop (length done) (length todo) (λ i '(dataset, imgFile, lblFile),
      img ← dataset !! i;
      '(img, imgFile, lblFile) ← load_record size img imgFile lblFile;
      dataset ← vec_write i img dataset;
      Some (dataset, imgFile, lblFile))
    (done ++ replicate (length todo) (mkImage [] [] 0),
     image_stream (Z.to_nat size) data (length done),
     IO.mkIn (todo ++ restL) false)
  = Some (done ++ imap (λ k, sample_at (Z.to_nat size) data (length done + k)) todo,
          image_stream (Z.to_nat size) data (length done + length todo),
          IO.mkIn restL false).
Proof.
  intros Hsize. revert done.
  induction todo as [|lb todo IH]; intros done.
  - cbn. rewrite Nat.add_0_r. reflexivity.
  - cbn [length for_loop replicate].
    rewrite list_lookup_middle by reflexivity. cbn [mbind option_bind app].
    rewrite load_record_at by exact Hsize. cbn [mbind option_bind].
    rewrite vec_write_Some by (rewrite length_app; cbn [length]; lia).
    cbn [mbind option_bind].
    rewrite insert_app_r_alt by lia. rewrite Nat.sub_diag.
    change (<[0%nat:=?x]> (?y :: ?l)) with (x :: l).
    specialize (IH (done ++ [sample_at (Z.to_nat size) data (length done) lb])).
    rewrite length_app, Nat.add_1_r, <- !app_assoc in IH. cbn [app] in IH.
    rewrite IH. cbn [imap].
    replace (length done + 0)%nat with (length done) by lia.
    replace (Datatypes.S (length done) + length todo)%nat
      with (length done + Datatypes.S (length todo))%nat by lia.
    do 5 f_equal. apply imap_ext. intros k x _. cbn. f_equal. lia.
Qed.

(** X16.  The decoder does not notice pixel data that ends early.  Whatever
    [data] follows the image header, it returns one sample per label;
    sample [i] holds the bytes the file has at [i * rows * cols], and
    [0.0] for every pixel the file lacks. *)
Theorem load_pads_missing_pixels (imagePath labelPath : string)
    (fs : IO.FileSystem) (rows cols : Z) (data labels : list byte) :
  0 <= rows < 2 ^ 32 -> 0 <= cols < 2 ^ 32 -> rows * cols < 2 ^ 31 ->
  Z.of_nat (length labels) < 2 ^ 32 ->
  IO.open_in fs imagePath
    = Some (be32 2051 ++ be32 (Z.of_nat (length labels)) ++ be32 rows
            ++ be32 cols ++ data) ->
  IO.open_in fs labelPath
    = Some (be32 2049 ++ be32 (Z.of_nat (length labels)) ++ labels) ->
  load imagePath labelPath fs
    = Some (imap (λ i lb,
              mkImage
                (normalize <$> take (Z.to_nat (rows * cols))
                   (drop (i * Z.to_nat (rows * cols)) data
                    ++ replicate (Z.to_nat (rows * cols)) "000"%byte))
                (target_of (Z_of_byte lb)) (Z_of_byte lb)) labels)
  /\ normalize "000"%byte = F32.zero.
Proof.
  intros Hrows Hcols Himage Hcount HopenI HopenL.
  split; [|vm_compute; reflexivity].
  unfold load. rewrite HopenI, HopenL.
  repeat (rewrite read_uint32_be32; cbn [mbind option_bind]).
  rewrite !swapEndian_be32 by lia.
  change (2051 =? 2051) with true. change (2049 =? 2049) with true.
  rewrite Z.eqb_refl. cbn [negb orb].
  assert (Hsize : to_int32 ((rows * cols) mod 2 ^ 32) = rows * cols).
  { assert (0 <= rows * cols) by nia.
    unfold to_int32. rewrite Z.mod_mod, Z.mod_small by lia.
    destruct (Z.ltb_spec (rows * cols) (2 ^ 31)); lia. }
  rewrite Hsize, Nat2Z.id.
  rewrite <- (app_nil_r labels) at 3.
  pose proof (load_records_at (rows * cols) data labels [] [] ltac:(nia)) as H.
  cbn [length app Nat.add] in H.
  unfold image_stream at 1 in H. rewrite decide_True in H by (cbn; lia).
  cbn [Nat.mul] in H. rewrite drop_0 in H. rewrite H. reflexivity.
Qed.

(** X17.  When the product [rows * cols], reduced to 32 bits, is negative
    as an [int] and there is at least one record, the decoder does not
    return: reserving the pixel vector throws. *)
Theorem load_negative_image_size (imagePath labelPath : string)
    (fs : IO.FileSystem) (count rows cols : Z) (restI restL : list byte) :
  0 < count < 2 ^ 32 -> 0 <= rows < 2 ^ 32 -> 0 <= cols < 2 ^ 32 ->
  2 ^ 31 <= (rows * cols) mod 2 ^ 32 ->
  IO.open_in fs imagePath
    = Some (be32 2051 ++ be32 count ++ be32 rows ++ be32 cols ++ restI) ->
  IO.open_in fs labelPath = Some (be32 2049 ++ be32 count ++ restL) ->
  load imagePath labelPath fs = None.
Proof.
  intros Hcount Hrows Hcols Hneg HopenI HopenL.
  unfold load. rewrite HopenI, HopenL.
  repeat (rewrite read_uint32_be32; cbn [mbind option_bind]).
  rewrite !swapEndian_be32 by lia.
  change (2051 =? 2051) with true. change (2049 =? 2049) with true.
  rewrite Z.eqb_refl. cbn [negb orb].
  rewrite (TrainFacts.for_loop_fails _ _ _ 0%nat); [reflexivity | lia |].
  intros [[dataset f1] f2]. destruct (dataset !! 0%nat); [|reflexivity].
  cbn [mbind option_bind]. unfold load_record, to_int32.
  rewrite Z.mod_mod by lia.
  destruct (Z.ltb_spec ((rows * cols) mod 2 ^ 32) (2 ^ 31)); [lia|].
  pose proof (Z.mod_pos_bound (rows * cols) (2 ^ 32) ltac:(lia)).
  destruct (Z.ltb_spec ((rows * cols) mod 2 ^ 32 - 2 ^ 32) 0); [reflexivity | lia].
Qed.

(** Two labelled records of two pixels whose pixel data stops after one
    byte, and a header whose dimensions multiply to [2 ^ 31]. *)
Definition short_files : IO.FileSystem :=
  IO.mkFS (<["img" := be32 2051 ++ be32 (Z.of_nat (length [x03; x07]))
                      ++ be32 1 ++ be32 2 ++ [xff]]>
             (<["lbl" := be32 2049 ++ be32 (Z.of_nat (length [x03; x07]))
                         ++ [x03; x07]]> ∅)) ∅.

Definition huge_files : IO.FileSystem :=
  IO.mkFS (<["img" := be32 2051 ++ be32 1 ++ be32 65536 ++ be32 32768 ++ []]>
             (<["lbl" := be32 2049 ++ be32 1 ++ [x03]]> ∅)) ∅.

Lemma swapEndian_involutive_witness :
  0 <= 2051 < 2 ^ 32
  /\ 0 <= swapEndian 2051 < 2 ^ 32
  /\ swapEndian (swapEndian 2051) = 2051.
Proof. split; [lia|]. apply swapEndian_involutive. lia. Defined.

Lemma load_unopened_witness :
  (IO.open_in (IO.mkFS ∅ ∅) "img" = None \/ IO.open_in (IO.mkFS ∅ ∅) "lbl" = None)
  /\ load "img" "lbl" (IO.mkFS ∅ ∅) = Some [].
Proof.
  split; [left; reflexivity|].
  apply load_unopened. left. reflexivity.
Defined.

Lemma load_pads_missing_pixels_witness :
  (0 <= 1 < 2 ^ 32 /\ 0 <= 2 < 2 ^ 32 /\ 1 * 2 < 2 ^ 31
   /\ Z.of_nat (length [x03; x07]) < 2 ^ 32)
  /\ load "img" "lbl" short_files
     = Some (imap (λ i lb,
               mkImage
                 (normalize <$> take (Z.to_nat (1 * 2))
                    (drop (i * Z.to_nat (1 * 2)) [xff]
                     ++ replicate (Z.to_nat (1 * 2)) "000"%byte))
                 (target_of (Z_of_byte lb)) (Z_of_byte lb)) [x03; x07]).
Proof.
  split; [repeat split; simpl; lia|].
  destruct (load_pads_missing_pixels "img" "lbl" short_files 1 2 [xff] [x03; x07])
    as [Hrun _]; [lia | lia | lia | simpl; lia | reflexivity | reflexivity |].
  exact Hrun.
Defined.

Lemma load_negative_image_size_witness :
  (0 < 1 < 2 ^ 32 /\ 0 <= 65536 < 2 ^ 32 /\ 0 <= 32768 < 2 ^ 32
   /\ 2 ^ 31 <= (65536 * 32768) mod 2 ^ 32)
  /\ load "img" "lbl" huge_files = None.
Proof.
  split; [repeat split; try lia; apply Z.leb_le; reflexivity|].
  apply (load_negative_image_size "img" "lbl" huge_files 1 65536 32768 [] [x03]);
    [lia | lia | lia | apply Z.leb_le; reflexivity | reflexivity | reflexivity].
Defined.

End DecoderEdges.

(** ** The viewers: picking the prediction, showing a pixel *)

Module ViewerFacts.
Import Bytes BytesFacts F32 DecoderFacts Viewer.

Lemma SFltb_irrefl (a : spec_float) : SFltb a a = false.
Proof.
  unfold SFltb, SFcompare. destruct a as [[]|[]| |[] m e]; try reflexivity.
  - rewrite Z.compare_refl. change (Pos.compare_cont Eq m m) with (Pos.compare m m).
    rewrite Pos.compare_refl. reflexivity.
  - rewrite Z.compare_refl. change (Pos.compare_cont Eq m m) with (Pos.compare m m).
    rewrite Pos.compare_refl. reflexivity.
Qed.

Lemma SFltb_trans (a b c : spec_float) :
  SFltb a b = true -> SFltb b c = true -> SFltb a c = true.
Proof.
  unfold SFltb, SFcompare.
  destruct a as [[]|[]| |[] ma ea], b as [[]|[]| |[] mb eb], c as [[]|[]| |[] mc ec];
    try discriminate; try reflexivity;
    change (Pos.compare_cont Eq ?p ?q) with (Pos.compare p q);
    destruct (Z.compare_spec ea eb), (Z.compare_spec eb ec), (Z.compare_spec ea ec);
    try discriminate; try reflexivity; try lia; subst;
    destruct (Pos.compare_spec ma mb), (Pos.compare_spec mb mc),
             (Pos.compare_spec ma mc);
    cbn [CompOpp]; try discriminate; try reflexivity; lia.
Qed.

Lemma getPrediction_run (output : list float) (v0 : float) :
  output !! 0%nat = Some v0 -> Z.of_nat (length output) < 2 ^ 31 ->
  exists r m,
    for_loop 1 (length output - 1) (λ i '(maxIndex, maxVal),
      v ← output !! i;
      if F32.ltb maxVal v then Some (to_int32 (Z.of_nat i), v)
      else Some (maxIndex, maxVal)) (0, v0) = Some (Z.of_nat r, m)
    /\ output !! r = Some m
    /\ forall j v, output !! j = Some v -> F32.ltb m v = false.
Proof.
  intros H0 Hlen.
  assert (Hne : (0 < length output)%nat) by (apply lookup_lt_Some in H0; exact H0).
  match goal with
  | |- context [for_loop 1 ?n ?body ?s] =>
      destruct (for_loop_invariant
        (λ i (st : Z * float),
           exists r, st.1 = Z.of_nat r /\ (r < i)%nat /\ output !! r = Some st.2
             /\ forall j v, (j < i)%nat -> output !! j = Some v ->
                  F32.ltb st.2 v = false)
        body n 1%nat s) as ([mi m] & Hrun & r & Hr & Hlt & Hm & Hmax)
  end.
  - exists 0%nat. cbn [fst snd]. split; [reflexivity|]. split; [lia|].
    split; [exact H0|]. intros j v Hj Hv. assert (j = 0%nat) as -> by lia.
    rewrite H0 in Hv. injection Hv as <-. apply SFltb_irrefl.
  - intros i [mi m] Hi (r & Hr & Hlt & Hm & Hmax). cbn [fst snd] in *.
    destruct (lookup_lt_is_Some_2 output i ltac:(lia)) as [v Hv].
    rewrite Hv. cbn [mbind option_bind].
    destruct (F32.ltb m v) eqn:Hcmp; eexists; (split; [reflexivity|]); cbn [fst snd].
    + exists i. split.
      { unfold to_int32. rewrite Z.mod_small by lia.
        destruct (Z.ltb_spec (Z.of_nat i) (2 ^ 31)); lia. }
      split; [lia|]. split; [exact Hv|].
      intros j w Hj Hw. destruct (decide (j = i)) as [->|Hne'].
      * rewrite Hv in Hw. injection Hw as <-. apply SFltb_irrefl.
      * destruct (F32.ltb v w) eqn:Hvw; [|reflexivity].
        rewrite <- (Hmax j w ltac:(lia) Hw). symmetry.
        exact (SFltb_trans _ _ _ Hcmp Hvw).
    + exists r. split; [exact Hr|]. split; [lia|]. split; [exact Hm|].
      intros j w Hj Hw. destruct (decide (j = i)) as [->|Hne'].
      * rewrite Hv in Hw. injection Hw as <-. exact Hcmp.
      * apply (Hmax j w); [lia | exact Hw].
  - cbn [fst snd] in *. subst mi. exists r, m. split; [exact Hrun|].
    split; [exact Hm|]. intros j v Hv. apply (Hmax j v); [|exact Hv].
    apply lookup_lt_Some in Hv. lia.
Qed.

(** X18.  On a non-empty output vector [getPrediction] returns an index
    inside the vector, and no element of the vector compares greater
    than the element at that index. *)
Theorem getPrediction_is_maximal (output : list float) :
  output <> [] -> Z.of_nat (length output) < 2 ^ 31 ->
  exists r m,
    getPrediction output = Some (Z.of_nat r)
    /\ output !! r = Some m
    /\ forall j v, output !! j = Some v -> F32.ltb m v = false.
Proof.
  intros Hne Hlen. destruct output as [|v0 rest]; [contradiction|].
  destruct (getPrediction_run (v0 :: rest) v0 eq_refl Hlen) as (r & m & Hrun & Hm & Hmax).
  exists r, m. unfold getPrediction. cbn [lookup list_lookup mbind option_bind].
  rewrite Hrun. cbn [mbind option_bind]. split; [reflexivity|].
  split; [exact Hm | exact Hmax].
Qed.

(** X19.  The two [getPrediction] helpers return the same index on every
    non-empty vector; on the empty vector the drawing program's returns
    0 while the dataset viewer's reads [output[0]] outside the vector. *)
Theorem getPrediction_variants (output : list float) :
  Z.of_nat (length output) < 2 ^ 31 ->
  (output <> [] -> getPrediction_draw output = getPrediction output)
  /\ getPrediction_draw [] = Some 0
  /\ getPrediction [] = None.
Proof.
  intros Hlen. split; [|split; reflexivity].
  intros Hne. destruct output as [|v0 rest]; [contradiction|].
  unfold getPrediction, getPrediction_draw.
  cbn [lookup list_lookup mbind option_bind].
  set (output := v0 :: rest) in *.
  assert (Hboth : forall n lo r m,
    (lo + n <= length output)%nat -> (r < lo)%nat -> output !! r = Some m ->
    (for_loop lo n (λ i result,
        r ← output !! result;
        v ← output !! i;
        if F32.ltb r v then Some i else Some result) r
       ≫= λ result, Some (to_int32 (Z.of_nat result)))
    = (for_loop lo n (λ i '(maxIndex, maxVal),
        v ← output !! i;
        if F32.ltb maxVal v then Some (to_int32 (Z.of_nat i), v)
        else Some (maxIndex, maxVal)) (to_int32 (Z.of_nat r), m)
       ≫= λ '(maxIndex, _), Some maxIndex)).
  { induction n as [|n IH]; intros lo r m Hfit Hr Hm; [reflexivity|].
    cbn [for_loop]. rewrite Hm. cbn [mbind option_bind].
    destruct (lookup_lt_is_Some_2 output lo ltac:(lia)) as [v Hv].
    rewrite Hv. cbn [mbind option_bind].
    destruct (F32.ltb m v); cbn [mbind option_bind].
    - apply IH; [lia | lia | exact Hv].
    - apply IH; [lia | lia | exact Hm]. }
  apply (Hboth (length output - 1)%nat 1%nat 0%nat v0); [cbn; lia | lia | reflexivity].
Qed.

(** X20.  The grey level drawn for a decoded pixel is the raw byte of the
    file: dividing by [255.0f], multiplying by [255.0f] and dropping the
    fraction loses nothing. *)
Theorem grey_level_of_decoded (b : byte) :
  grey_level (normalize b) = Some (Z_of_byte b).
Proof. destruct b; vm_compute; reflexivity. Qed.

Lemma getPrediction_is_maximal_witness :
  [F32.one; F32.two; F32.zero] <> []
  /\ Z.of_nat (length [F32.one; F32.two; F32.zero]) < 2 ^ 31
  /\ exists r m,
       getPrediction [F32.one; F32.two; F32.zero] = Some (Z.of_nat r)
       /\ [F32.one; F32.two; F32.zero] !! r = Some m
       /\ forall j v, [F32.one; F32.two; F32.zero] !! j = Some v ->
            F32.ltb m v = false.
Proof.
  split; [discriminate|]. split; [simpl; lia|].
  apply getPrediction_is_maximal; [discriminate | simpl; lia].
Defined.

Lemma getPrediction_variants_witness :
  Z.of_nat (length [F32.one; F32.two; F32.zero]) < 2 ^ 31
  /\ [F32.one; F32.two; F32.zero] <> []
  /\ getPrediction_draw [F32.one; F32.two; F32.zero]
     = getPrediction [F32.one; F32.two; F32.zero].
Proof.
  split; [simpl; lia|]. split; [discriminate|].
  apply (getPrediction_variants [F32.one; F32.two; F32.zero]);
    [simpl; lia | discriminate].
Defined.

End ViewerFacts.

(** ** [scaleImage] at scale 1 on a decoded image *)

Module ScaleOne.
Import F32 ImgProc DecoderFacts ScaleFacts.

(** What the coordinate arithmetic gives on the default 28 x 28 grid
    when [scale] is [1.0f]. *)
Record grid_point (x : nat) (fx : float) : Prop := {
  gp_floor : F32.floor_int fx = Some (Z.of_nat x);
  gp_frac : F32.sub fx (F32.of_int (Z.of_nat x)) = F32.zero;
  gp_low : F32.ltb fx (F32.of_int 0) = false;
  gp_high : F32.leb (F32.of_int (28 - 1)) fx = (27 <=? x)%nat
}.

Lemma source_x_one (x : nat) :
  (x < 28)%nat -> grid_point x (source_x F32.one 28 28 (Z.of_nat x)).
Proof.
  intros Hx.
  do 28 (destruct x as [|x]; [split; vm_compute; reflexivity|]). lia.
Qed.

Lemma source_y_one (y : nat) :
  (y < 28)%nat -> grid_point y (source_y F32.one 28 28 (Z.of_nat y)).
Proof.
  intros Hy.
  do 28 (destruct y as [|y]; [split; vm_compute; reflexivity|]). lia.
Qed.

Lemma one_minus_zero : F32.sub (F32.of_int 1) F32.zero = F32.one.
Proof. vm_compute. reflexivity. Qed.

Lemma decoded_times_one (a : byte) : F32.mul (normalize a) F32.one = normalize a.
Proof. destruct a; vm_compute; reflexivity. Qed.

Lemma decoded_times_zero (a : byte) : F32.mul (normalize a) F32.zero = F32.zero.
Proof. destruct a; vm_compute; reflexivity. Qed.

Lemma decoded_plus_zero (a : byte) : F32.add (normalize a) F32.zero = normalize a.
Proof. destruct a; vm_compute; reflexivity. Qed.

Lemma lerp_left (a b : byte) :
  lerp (normalize a) (normalize b) F32.zero = normalize a.
Proof.
  unfold lerp.
  rewrite one_minus_zero, decoded_times_one, decoded_times_zero, decoded_plus_zero.
  reflexivity.
Qed.

Lemma read_decoded (bytes : list byte) (y x : nat) (b : byte) :
  (y < 28)%nat -> (x < 28)%nat ->
  bytes !! (y * 28 + x)%nat = Some b ->
  pixel_at (normalize <$> bytes) 28 (Z.of_nat y) (Z.of_nat x)
  = Some (normalize b).
Proof.
  intros Hy Hx Hb. unfold pixel_at.
  rewrite (as_int_Some (Z.of_nat y * 28)) by lia. cbn [mbind option_bind].
  rewrite (as_int_Some (Z.of_nat y * 28 + Z.of_nat x)) by lia.
  cbn [mbind option_bind]. unfold vec_read.
  destruct (Z.ltb_spec (Z.of_nat y * 28 + Z.of_nat x) 0); [lia|].
  replace (Z.to_nat (Z.of_nat y * 28 + Z.of_nat x)) with (y * 28 + x)%nat by lia.
  rewrite list_lookup_fmap, Hb. reflexivity.
Qed.

Lemma pixel_one (bytes : list byte) (x y : nat) (fx fy : float) (b : byte) :
  length bytes = 784%nat -> (x < 28)%nat -> (y < 28)%nat ->
  grid_point x fx -> grid_point y fy ->
  bytes !! (y * 28 + x)%nat = Some b ->
  (if outside 28 28 fx fy then Some F32.zero
   else bilinear (normalize <$> bytes) 28 fx fy)
  = Some (if (x <? 27)%nat && (y <? 27)%nat then normalize b else F32.zero).
Proof.
  intros Hlen Hx Hy [Hfx Hwx Hlx Hhx] [Hfy Hwy Hly Hhy] Hb.
  unfold outside. rewrite Hlx, Hhx, Hly, Hhy. cbn [orb].
  destruct (Nat.leb_spec 27 x) as [Hx'|Hx'].
  { cbn [orb]. destruct (Nat.ltb_spec x 27); [lia|]. reflexivity. }
  destruct (Nat.leb_spec 27 y) as [Hy'|Hy'].
  { cbn [orb]. destruct (Nat.ltb_spec y 27); [lia|]. rewrite andb_false_r.
    reflexivity. }
  cbn [orb]. destruct (Nat.ltb_spec x 27); [|lia].
  destruct (Nat.ltb_spec y 27); [|lia]. cbn [andb].
  unfold bilinear. rewrite Hfx, Hfy. cbn [mbind option_bind].
  rewrite Hwx, Hwy.
  destruct (lookup_lt_is_Some_2 bytes (y * 28 + (x + 1))%nat ltac:(lia)) as [b10 H10].
  destruct (lookup_lt_is_Some_2 bytes ((y + 1) * 28 + x)%nat ltac:(lia)) as [b01 H01].
  destruct (lookup_lt_is_Some_2 bytes ((y + 1) * 28 + (x + 1))%nat ltac:(lia))
    as [b11 H11].
  rewrite (as_int_Some (Z.of_nat x + 1)) by lia. cbn [mbind option_bind].
  rewrite (as_int_Some (Z.of_nat y + 1)) by lia. cbn [mbind option_bind].
  replace (Z.of_nat x + 1) with (Z.of_nat (x + 1)) by lia.
  replace (Z.of_nat y + 1) with (Z.of_nat (y + 1)) by lia.
  rewrite (read_decoded bytes y x b), (read_decoded bytes y (x + 1) b10),
    (read_decoded bytes (y + 1) x b01),
    (read_decoded bytes (y + 1) (x + 1) b11) by (lia || assumption).
  cbn [mbind option_bind]. rewrite !lerp_left. reflexivity.
Qed.

(** X21.  Scaling a decoded 28 x 28 image by [1.0f] is not the identity:
    every pixel of the first 27 rows and columns keeps its value
    exactly, and the last row and the last column come out black. *)
Theorem scaleImage_one (bytes : list byte) :
  length bytes = 784%nat ->
  exists out,
    scaleImage (normalize <$> bytes) F32.one 28 28 28 28 = Some out
    /\ length out = 784%nat
    /\ forall x y b, (x < 28)%nat -> (y < 28)%nat ->
         bytes !! (y * 28 + x)%nat = Some b ->
         out !! (y * 28 + x)%nat
         = Some (if (x <? 27)%nat && (y <? 27)%nat then normalize b
                 else F32.zero).
Proof.
  intros Hlen.
  destruct (scaleImage_total (normalize <$> bytes) F32.one 28 28 28 28)
    as (out & Hrun & Hsize & Hpix).
  1-5: lia.
  { intros x y Hx Hy. change (Z.to_nat 28) with 28%nat in Hx, Hy.
    destruct (lookup_lt_is_Some_2 bytes (y * 28 + x)%nat ltac:(lia)) as [b Hb].
    rewrite (pixel_one bytes x y _ _ b Hlen Hx Hy
               (source_x_one x Hx) (source_y_one y Hy) Hb).
    eexists; reflexivity. }
  exists out. split; [exact Hrun|]. split; [exact Hsize|].
  intros x y b Hx Hy Hb. change (Z.to_nat 28) with 28%nat in Hpix.
  rewrite (Hpix x y Hx Hy).
  exact (pixel_one bytes x y _ _ b Hlen Hx Hy
           (source_x_one x Hx) (source_y_one y Hy) Hb).
Qed.

Lemma scaleImage_one_witness :
  length (replicate 784 x80) = 784%nat
  /\ exists out,
       scaleImage (normalize <$> replicate 784 x80) F32.one 28 28 28 28
         = Some out
       /\ length out = 784%nat.
Proof.
  split; [reflexivity|].
  destruct (scaleImage_one (replicate 784 x80) eq_refl) as (out & Hrun & Hlen & _).
  exists out. split; [exact Hrun | exact Hlen].
Defined.

End ScaleOne.
